(** * Matbakh Gedity menu page

    A shallow embedding of the page component of the menu application
    (both copies of [MenuPage]): the price formatter, the filter/sort
    engine, the cart store and the WhatsApp order composer, together
    with the properties stated about them.

    Conventions of the embedding.
    - JavaScript numbers that come from the catalog or from the cart are
      integers ([Z]); the values [Infinity], [-Infinity] and [NaN], which
      [Math.min()], [Math.max()] and their difference produce, are the
      extra constructors of [JS.Num].
    - JavaScript strings are Rocq strings holding the UTF-8 bytes of the
      text.
    - React state ([useState]) is a record that every handler maps to the
      next record; arrays that are mutated in place live in a store. *)

From Stdlib Require Import ZArith List String Ascii Lia Bool Permutation Sorted.
From Stdlib Require Import Numbers.DecimalString.
From stdpp Require Import base option list gmap strings.

Open Scope string_scope.
Open Scope Z_scope.

(** ** The JavaScript built-ins the page relies on *)

Module JS.

(** Numbers: an integer or one of the three special values. *)
Inductive Num := NegInf | Fin (z : Z) | PosInf | NaN.

(** [Math.min(...l)] and [Math.max(...l)] on an array of integers; with no
    argument they are [Infinity] and [-Infinity]. *)
Definition Math_min (l : list Z) : Num :=
  match l with
  | [] => PosInf
  | x :: xs => Fin (fold_left Z.min xs x)
  end.

Definition Math_max (l : list Z) : Num :=
  match l with
  | [] => NegInf
  | x :: xs => Fin (fold_left Z.max xs x)
  end.

(** [a - b]. *)
Definition sub (a b : Num) : Num :=
  match a, b with
  | NaN, _ | _, NaN => NaN
  | Fin x, Fin y => Fin (x - y)
  | PosInf, PosInf | NegInf, NegInf => NaN
  | PosInf, _ => PosInf
  | NegInf, _ => NegInf
  | Fin _, PosInf => NegInf
  | Fin _, NegInf => PosInf
  end.

(** [a === b] on numbers: [NaN] is not equal to itself. *)
Definition strict_eq (a b : Num) : bool :=
  match a, b with
  | NegInf, NegInf | PosInf, PosInf => true
  | Fin x, Fin y => x =? y
  | _, _ => false
  end.

(** [n || 0] on a number: [0] is the only falsy integer. *)
Definition or0 (n : Z) : Z := if n =? 0 then 0 else n.

(** [v || 0] where [v] is a number or [undefined]. *)
Definition opt_or0 (v : option Z) : Z :=
  match v with
  | Some n => or0 n
  | None => 0
  end.

(** Truthiness of a string-or-missing value: [undefined], [null] and the
    empty string are falsy. *)
Definition truthy (s : option string) : bool :=
  match s with
  | Some (String _ _) => true
  | _ => false
  end.

(** Template-literal conversion of a number, [`${n}`]. *)
Definition toString (n : Num) : string :=
  match n with
  | Fin z => NilZero.string_of_int (Z.to_int z)
  | PosInf => "Infinity"
  | NegInf => "-Infinity"
  | NaN => "NaN"
  end.

(** Template-literal conversion of a string-or-missing value. *)
Definition str (s : option string) : string :=
  match s with
  | Some s => s
  | None => "undefined"
  end.

(** [String.prototype.toLowerCase] on the ASCII letters; every other byte
    (in particular the bytes of Arabic text, which has no case) is kept. *)
Definition lower_char (c : ascii) : ascii :=
  let n := nat_of_ascii c in
  if (Nat.leb 65 n && Nat.leb n 90)%bool then ascii_of_nat (n + 32) else c.

Fixpoint toLowerCase (s : string) : string :=
  match s with
  | EmptyString => EmptyString
  | String c s' => String (lower_char c) (toLowerCase s')
  end.

(** [s.includes(q)]: [q] occurs in [s] at some position. *)
Fixpoint includes (s q : string) : bool :=
  String.prefix q s ||
  match s with
  | EmptyString => false
  | String _ s' => includes s' q
  end.

(** [encodeURIComponent]: every byte outside [A-Z a-z 0-9 - _ . ! ~ * ' ( )]
    becomes [%XX]. *)
Definition unreserved (c : ascii) : bool :=
  let n := nat_of_ascii c in
  ((Nat.leb 65 n && Nat.leb n 90) || (Nat.leb 97 n && Nat.leb n 122) ||
   (Nat.leb 48 n && Nat.leb n 57) ||
   existsb (Nat.eqb n) [45; 95; 46; 33; 126; 42; 39; 40; 41]%nat)%bool.

Definition hex_digit (n : nat) : ascii :=
  if Nat.ltb n 10 then ascii_of_nat (48 + n) else ascii_of_nat (55 + n).

Definition encode_char (c : ascii) : string :=
  if unreserved c then String c EmptyString
  else
    let n := nat_of_ascii c in
    String "%" (String (hex_digit (Nat.div n 16))
               (String (hex_digit (Nat.modulo n 16)) EmptyString)).

Fixpoint encodeURIComponent (s : string) : string :=
  match s with
  | EmptyString => EmptyString
  | String c s' => encode_char c ++ encodeURIComponent s'
  end.

(** [Array.prototype.sort(comparefn)].  The comparator's result is read by
    its sign, [NaN] counting as [0]; the sort is stable.  For a comparator
    that is a consistent ordering the sorted array is determined by these
    two facts, and it is the one a stable insertion computes. *)
Definition sortCompare (v : Num) : comparison :=
  match v with
  | NaN => Eq
  | Fin z => z ?= 0
  | PosInf => Gt
  | NegInf => Lt
  end.

Section Sort.
Context {A : Type} (comparefn : A -> A -> Num).

Fixpoint sort_insert (x : A) (l : list A) : list A :=
  match l with
  | [] => [x]
  | y :: l' =>
      match sortCompare (comparefn x y) with
      | Gt => y :: sort_insert x l'
      | _ => x :: l
      end
  end.

Fixpoint sort (l : list A) : list A :=
  match l with
  | [] => []
  | x :: l' => sort_insert x (sort l')
  end.
End Sort.

End JS.

(** ** Data model *)

Inductive Language := en | ar.

(** The [price] field of a catalog item: missing ([null], [undefined], the
    empty string), a number, or an array of numbers. *)
Inductive Price :=
| PNull
| PUndefined
| PEmptyStr
| PNum (n : Z)
| PArr (ps : list Z).

Record MenuItem := {
  name : option string;
  name_ar : option string;
  description : option string;
  description_ar : option string;
  price : Price;
  image : option string
}.

(** A cart line is [{ ...item, price: cartPrice, quantity }]: the fields of
    the item, its [price] replaced by a number (or [undefined]), and a
    quantity. *)
Record CartLine := {
  line_item : MenuItem;
  line_price : option Z;
  line_quantity : Z
}.

Definition line_name (l : CartLine) : option string := name (line_item l).

Inductive SortMode := default_order | low_high | high_low.

(** The state of the page component that the handlers read and write. *)
Record Page := {
  cart : list CartLine;
  orderNotes : string;
  language : Language;
  selectedCategory : string;
  searchQuery : string;
  priceSort : SortMode
}.

Definition setCart (f : list CartLine -> list CartLine) (p : Page) : Page :=
  {| cart := f (cart p); orderNotes := orderNotes p; language := language p;
     selectedCategory := selectedCategory p; searchQuery := searchQuery p;
     priceSort := priceSort p |}.

Definition setOrderNotes (s : string) (p : Page) : Page :=
  {| cart := cart p; orderNotes := s; language := language p;
     selectedCategory := selectedCategory p; searchQuery := searchQuery p;
     priceSort := priceSort p |}.

(** ** Cart store *)

Definition same_name (n : option string) (l : CartLine) : bool :=
  bool_decide (line_name l = n).

Definition with_quantity (l : CartLine) (q : Z) : CartLine :=
  {| line_item := line_item l; line_price := line_price l; line_quantity := q |}.

(** [Array.isArray(item.price) ? item.price[0] : (item.price || 0)] *)
Definition cartPrice (item : MenuItem) : option Z :=
  match price item with
  | PArr ps => head ps
  | PNum n => Some (JS.or0 n)
  | PNull | PUndefined | PEmptyStr => Some 0
  end.

(** [addToCart(item, quantity = 1)]; [None] is a call with a missing item.
    The page calls it as [addToCart(item)], that is with quantity 1. *)
Definition addToCart (item : option MenuItem) (quantity : Z) (p : Page) : Page :=
  match item with
  | None => p
  | Some item =>
      setCart (fun prev =>
        match find (same_name (name item)) prev with
        | Some existing =>
            map (fun cartItem =>
                   if same_name (name item) cartItem
                   then with_quantity cartItem (line_quantity cartItem + quantity)
                   else cartItem) prev
        | None =>
            (prev ++ [ {| line_item := item; line_price := cartPrice item;
                          line_quantity := quantity |} ])%list
        end) p
  end.

(** [setCart(prev => prev.filter(item => item.name !== itemName))] *)
Definition removeFromCart (itemName : option string) (p : Page) : Page :=
  setCart (List.filter (fun item => negb (same_name itemName item))) p.

Definition updateQuantity (itemName : option string) (newQuantity : Z) (p : Page) : Page :=
  if newQuantity <=? 0 then removeFromCart itemName p
  else
    setCart (map (fun item =>
                    if same_name itemName item then with_quantity item newQuantity
                    else item)) p.

(** [setCart([]); setOrderNotes('')] *)
Definition clearCart (p : Page) : Page :=
  setOrderNotes "" (setCart (fun _ => []) p).

(** [cart.reduce((sum, item) => sum + ..., 0)] *)
Definition getTotalItems (p : Page) : Z :=
  fold_left (fun sum item => sum + JS.or0 (line_quantity item)) (cart p) 0.

Definition getTotalPrice (p : Page) : Z :=
  fold_left (fun sum item =>
               sum + JS.opt_or0 (line_price item) * JS.or0 (line_quantity item))
            (cart p) 0.

(** The cart operations as data, and the states they reach. *)
Inductive CartOp :=
| AddToCart (item : option MenuItem) (quantity : Z)
| UpdateQuantity (itemName : option string) (newQuantity : Z)
| RemoveFromCart (itemName : option string)
| ClearCart.

Definition apply_op (p : Page) (op : CartOp) : Page :=
  match op with
  | AddToCart item quantity => addToCart item quantity p
  | UpdateQuantity itemName newQuantity => updateQuantity itemName newQuantity p
  | RemoveFromCart itemName => removeFromCart itemName p
  | ClearCart => clearCart p
  end.

Definition run (ops : list CartOp) (p : Page) : Page := fold_left apply_op ops p.

(** A page whose cart is the initial [useState([])]. *)
Definition fresh_page (p : Page) : Prop := cart p = [].

Definition reachable (p : Page) : Prop :=
  exists p0 ops, fresh_page p0 /\ p = run ops p0.

(** ** Filter/sort engine *)

(** Arrays are objects: the catalog holds references into a store of arrays,
    [[...a]] and [filter] allocate, [sort] writes in place. *)
Definition loc := nat.

Record Category := {
  cat_name : option string;
  cat_name_ar : option string;
  heroImage : option string;
  items : option loc
}.

Abbreviation Catalog := (gmap string Category).
Abbreviation Store := (gmap loc (list MenuItem)).

(** A computation that reads and writes the store. *)
Definition M (A : Type) : Type := Store -> A * Store.

Definition ret {A} (a : A) : M A := fun h => (a, h).

Definition bind {A B} (m : M A) (k : A -> M B) : M B :=
  fun h => let (a, h') := m h in k a h'.

Notation "'let*' x ':=' m 'in' k" := (bind m (fun x => k))
  (at level 10, x name, m at level 100, k at level 200).

Definition contents (h : Store) (a : loc) : list MenuItem := default [] (h !! a).

Definition new_array (v : list MenuItem) : M loc :=
  fun h => let a := fresh (dom h) in (a, <[a := v]> h).

(** [[...a]] *)
Definition spread (a : loc) : M loc :=
  fun h => new_array (contents h a) h.

(** [a.filter(f)] *)
Definition Array_filter (f : MenuItem -> bool) (a : loc) : M loc :=
  fun h => new_array (List.filter f (contents h a)) h.

(** [a.sort(comparefn)]: sorts [a] itself and returns it. *)
Definition Array_sort (comparefn : MenuItem -> MenuItem -> JS.Num) (a : loc) : M loc :=
  fun h => (a, <[a := JS.sort comparefn (contents h a)]> h).

(** The search predicate of [items.filter(...)], for a non-empty query. *)
Definition matchesQuery (searchQuery : string) (item : MenuItem) : bool :=
  let query := JS.toLowerCase searchQuery in
  match name item with
  | Some n => JS.includes (JS.toLowerCase n) query
  | None => false
  end
  || (JS.truthy (name_ar item) &&
      match name_ar item with Some s => JS.includes s searchQuery | None => false end)
  || (JS.truthy (description item) &&
      match description item with
      | Some s => JS.includes (JS.toLowerCase s) query
      | None => false
      end)
  || (JS.truthy (description_ar item) &&
      match description_ar item with Some s => JS.includes s searchQuery | None => false end).

(** [Array.isArray(a.price) ? Math.min(...a.price) : (a.price || 0)] *)
Definition minPriceOf (a : MenuItem) : JS.Num :=
  match price a with
  | PArr ps => JS.Math_min ps
  | PNum n => JS.Fin (JS.or0 n)
  | PNull | PUndefined | PEmptyStr => JS.Fin 0
  end.

(** [Array.isArray(a.price) ? Math.max(...a.price) : (a.price || 0)] *)
Definition maxPriceOf (a : MenuItem) : JS.Num :=
  match price a with
  | PArr ps => JS.Math_max ps
  | PNum n => JS.Fin (JS.or0 n)
  | PNull | PUndefined | PEmptyStr => JS.Fin 0
  end.

Definition compareLowHigh (a b : MenuItem) : JS.Num :=
  JS.sub (minPriceOf a) (minPriceOf b).

Definition compareHighLow (a b : MenuItem) : JS.Num :=
  JS.sub (maxPriceOf b) (maxPriceOf a).

Definition nonEmpty (s : string) : bool :=
  match s with EmptyString => false | String _ _ => true end.

Definition getFilteredAndSortedItems (menuData : Catalog) (p : Page) : M loc :=
  match menuData !! selectedCategory p with
  | None => new_array []
  | Some categoryData =>
      match items categoryData with
      | None => new_array []
      | Some catalogItems =>
          let* items := spread catalogItems in
          let* items := (if nonEmpty (searchQuery p)
                         then Array_filter (matchesQuery (searchQuery p)) items
                         else ret items) in
          let* items := match priceSort p with
                        | low_high => Array_sort compareLowHigh items
                        | high_low => Array_sort compareHighLow items
                        | default_order => ret items
                        end in
          ret items
      end
  end.

(** The array the engine hands to the view. *)
Definition filteredItems (menuData : Catalog) (p : Page) (h : Store) : list MenuItem :=
  let (r, h') := getFilteredAndSortedItems menuData p h in contents h' r.

(** ** Price formatting and the order composer *)

Definition nl : string := String "010" EmptyString.

(** A call [window.open(url, target)]. *)
Record Navigation := { url : string; target : string }.

(** [language === 'ar' && item.name_ar ? item.name_ar : item.name] *)
Definition itemName (language : Language) (item : CartLine) : option string :=
  match language with
  | ar => if JS.truthy (name_ar (line_item item)) then name_ar (line_item item)
          else line_name item
  | en => line_name item
  end.

Definition greeting (language : Language) : string :=
  match language with
  | en => "Hello! I'd like to place an order from Matbakh Gedity." ++ nl ++ nl
  | ar => "مرحباً! أود تقديم طلب من مطبخ جديتي." ++ nl ++ nl
  end.

Definition totalLabel (language : Language) : string :=
  match language with en => "Total" | ar => "المجموع" end.

Definition notesLabel (language : Language) : string :=
  match language with en => "Special Instructions" | ar => "تعليمات خاصة" end.

Definition thanks (language : Language) : string :=
  match language with en => "Thank you!" | ar => "شكراً!" end.

(** The order message, for a rendering [show] of amounts. *)
Section Composer.
Variable show : JS.Num -> string.

Definition lineTotal (item : CartLine) : Z :=
  JS.opt_or0 (line_price item) * JS.or0 (line_quantity item).

Definition composeMessage (p : Page) : string :=
  let message := greeting (language p) in
  let message :=
    fold_left (fun message item =>
                 message ++ "• " ++ JS.toString (JS.Fin (line_quantity item)) ++ "x "
                   ++ JS.str (itemName (language p) item) ++ " - EGP "
                   ++ show (JS.Fin (lineTotal item)) ++ nl)
              (cart p) message in
  let message :=
    message ++ nl ++ totalLabel (language p) ++ ": EGP "
      ++ show (JS.Fin (getTotalPrice p)) in
  let message :=
    if nonEmpty (orderNotes p)
    then message ++ nl ++ nl ++ notesLabel (language p) ++ ": " ++ orderNotes p
    else message in
  message ++ nl ++ nl ++ thanks (language p).

Definition handleWhatsAppOrder (whatsappNumber : string)
    (p : Page) (opened : list Navigation) : Page * list Navigation :=
  let message := composeMessage p in
  let whatsappUrl :=
    "https://wa.me/" ++ whatsappNumber ++ "?text=" ++ JS.encodeURIComponent message in
  (p, (opened ++ [ {| url := whatsappUrl; target := "_blank" |} ])%list).
End Composer.

(** First copy of the page: numbers are rendered with [toLocaleString], whose
    output depends on the locale of the browser and is left open. *)
Module V1.
Section Locale.
Variable toLocaleString : JS.Num -> string.

Definition formatPrice (price : Price) (language : Language) : string :=
  match price with
  | PNull | PUndefined | PEmptyStr =>
      match language with en => "EGP 0" | ar => "ج.م 0" end
  | PArr ps =>
      if (length ps =? 0)%nat then
        match language with en => "EGP 0" | ar => "ج.م 0" end
      else
        let minPrice := JS.Math_min ps in
        let maxPrice := JS.Math_max ps in
        if JS.strict_eq minPrice maxPrice then
          "EGP " ++ toLocaleString minPrice
        else
          match language with
          | en => "EGP " ++ toLocaleString minPrice ++ " - " ++ toLocaleString maxPrice
          | ar => "ج.م " ++ toLocaleString minPrice ++ " - " ++ toLocaleString maxPrice
          end
  | PNum n => "EGP " ++ toLocaleString (JS.Fin n)
  end.

Definition whatsappNumber : string := "+201035087703".

Definition handleWhatsAppOrder : Page -> list Navigation -> Page * list Navigation :=
  handleWhatsAppOrder toLocaleString whatsappNumber.
End Locale.
End V1.

(** Second copy of the page: numbers are interpolated as they are. *)
Module V2.
Definition formatPrice (price : Price) (language : Language) : string :=
  match price with
  | PNull | PUndefined | PEmptyStr =>
      match language with en => "Price on request" | ar => "السعر عند الطلب" end
  | PArr ps =>
      if (length ps =? 0)%nat then
        match language with en => "Price on request" | ar => "السعر عند الطلب" end
      else
        let minPrice := JS.Math_min ps in
        let maxPrice := JS.Math_max ps in
        if JS.strict_eq minPrice maxPrice then
          "EGP " ++ JS.toString minPrice
        else
          match language with
          | en => "EGP " ++ JS.toString minPrice ++ " - " ++ JS.toString maxPrice
          | ar => "ج.م " ++ JS.toString minPrice ++ " - " ++ JS.toString maxPrice
          end
  | PNum n => "EGP " ++ JS.toString (JS.Fin n)
  end.

Definition whatsappNumber : string := "+201000000000".

Definition handleWhatsAppOrder : Page -> list Navigation -> Page * list Navigation :=
  handleWhatsAppOrder JS.toString whatsappNumber.
End V2.


(** ** Vocabulary of the stated properties *)

(** The unit price of a line, a missing price counting as [0]. *)
Definition unitPrice (l : CartLine) : Z :=
  match line_price l with
  | Some n => n
  | None => 0
  end.

(** The sum over the lines of quantity times unit price. *)
Fixpoint sumLines (c : list CartLine) : Z :=
  match c with
  | [] => 0
  | l :: c' => line_quantity l * unitPrice l + sumLines c'
  end.

(** The line of the cart that carries a given name, if any. *)
Definition lineOf (n : option string) (p : Page) : option CartLine :=
  find (same_name n) (cart p).

Definition quantityOf (n : option string) (p : Page) : option Z :=
  line_quantity <$> lineOf n p.

Definition priceOf (n : option string) (p : Page) : option (option Z) :=
  line_price <$> lineOf n p.

Definition uniqueNames (p : Page) : Prop := NoDup (map line_name (cart p)).

Definition positiveQuantities (p : Page) : Prop :=
  Forall (fun l => 0 < line_quantity l) (cart p).

(** Every [addToCart] of a sequence is given a positive quantity, as the
    calls of the page are (they leave the default, 1). *)
Definition addsPositive (op : CartOp) : Prop :=
  match op with
  | AddToCart _ quantity => 0 < quantity
  | _ => True
  end.

(** [m] is the least (greatest) element of [l]. *)
Definition least (m : Z) (l : list Z) : Prop := In m l /\ Forall (Z.le m) l.
Definition greatest (m : Z) (l : list Z) : Prop := In m l /\ Forall (Z.ge m) l.

(** The order of the numbers, [NaN] being comparable to nothing. *)
Definition num_le (a b : JS.Num) : Prop :=
  match a, b with
  | JS.NaN, _ | _, JS.NaN => False
  | JS.NegInf, _ | _, JS.PosInf => True
  | JS.Fin x, JS.Fin y => x <= y
  | _, _ => False
  end.

#[global] Instance Num_eq_dec : EqDecision JS.Num.
Proof. solve_decision. Defined.

Definition notNaN (a : JS.Num) : Prop := a <> JS.NaN.

(** Ascending by the low-high key, descending by the high-low key. *)
Definition lowHighOrder (x y : MenuItem) : Prop := num_le (minPriceOf x) (minPriceOf y).
Definition highLowOrder (x y : MenuItem) : Prop := num_le (maxPriceOf y) (maxPriceOf x).

(** The items of a list whose sort key is [k], in the order of the list. *)
Definition withKey (key : MenuItem -> JS.Num) (k : JS.Num) (l : list MenuItem) : list MenuItem :=
  List.filter (fun x => bool_decide (key x = k)) l.

(** [q] occurs in [s]. *)
Definition occursIn (q s : string) : Prop :=
  exists pre suf, s = pre ++ q ++ suf.







(** The literal that names the currency in each language. *)
Definition currency (language : Language) : string :=
  match language with en => "EGP" | ar => "ج.م" end.

Definition missingPrice (price : Price) : Prop :=
  price = PNull \/ price = PUndefined \/ price = PEmptyStr \/ price = PArr [].







(** A catalog whose selected category has the item array [its]. *)
Definition showsCategory (menuData : Catalog) (p : Page) (h : Store)
    (its : list MenuItem) : Prop :=
  exists categoryData a,
    menuData !! selectedCategory p = Some categoryData /\
    items categoryData = Some a /\
    h !! a = Some its.

(** The items that pass the search box, in catalog order. *)
Definition searched (p : Page) (its : list MenuItem) : list MenuItem :=
  if nonEmpty (searchQuery p) then List.filter (matchesQuery (searchQuery p)) its
  else its.

(** The order that a sort mode gives to a list of items. *)
Definition sortedBy (mode : SortMode) (l : list MenuItem) : list MenuItem :=
  match mode with
  | low_high => JS.sort compareLowHigh l
  | high_low => JS.sort compareHighLow l
  | default_order => l
  end.

(** Every array of the store [h] is in [h'] with the same elements in the
    same order. *)
Definition unchanged (h h' : Store) : Prop :=
  forall a v, h !! a = Some v -> h' !! a = Some v.

(** A run that started in store [h0] has left it unchanged and returns an
    array that [h0] did not have, holding [v]. *)
Definition yields (h0 : Store) (v : list MenuItem) (res : loc * Store) : Prop :=
  unchanged h0 (snd res) /\ h0 !! fst res = None /\ contents (snd res) (fst res) = v.

(** The example catalog of the scenario: a scalar price and a range. *)
Definition koshari : MenuItem :=
  {| name := Some "Koshari"; name_ar := Some "كشري"; description := None;
     description_ar := Some "عدس وأرز ومكرونة"; price := PNum 45; image := None |}.

Definition fattah : MenuItem :=
  {| name := Some "Fattah"; name_ar := None; description := Some "Rice, bread and MEAT";
     description_ar := None; price := PArr [80; 120]; image := None |}.

Definition emptyPage : Page :=
  {| cart := []; orderNotes := ""; language := ar; selectedCategory := "mains";
     searchQuery := ""; priceSort := default_order |}.

Definition mainsCatalog : Catalog :=
  {[ "mains" := {| cat_name := Some "Mains"; cat_name_ar := None; heroImage := None;
                   items := Some 0%nat |} ]}.

Definition mainsStore : Store := {[ 0%nat := [fattah; koshari] ]}.

(** An English (United States) [toLocaleString] for integers: groups of
    three digits separated by commas. *)
Fixpoint groupDigits (n : nat) (ds : list ascii) : list ascii :=
  match ds with
  | [] => []
  | d :: ds' =>
      match n with
      | O => match ds' with
             | [] => [d]
             | _ => d :: ","%char :: groupDigits 2 ds'
             end
      | S n' => d :: groupDigits n' ds'
      end
  end.

Definition enUS (n : JS.Num) : string :=
  match n with
  | JS.Fin z =>
      let digits := list_ascii_of_string (NilZero.string_of_uint (N.to_uint (Z.abs_N z))) in
      let grouped := string_of_list_ascii (rev (groupDigits 2 (rev digits))) in
      if z <? 0 then "-" ++ grouped else grouped
  | JS.PosInf => "∞"
  | JS.NegInf => "-∞"
  | JS.NaN => "NaN"
  end.

(** ** The rest of the page *)

(** *** Localized text *)

(** The fields that [getText] is asked for. *)
Inductive Field := f_name | f_description.

(** The objects [getText] reads: [item[field]] and [item[`${field}_ar`]]. *)
Class Localized (T : Type) := {
  field : Field -> T -> option string;
  field_ar : Field -> T -> option string
}.

#[global] Instance MenuItem_localized : Localized MenuItem := {|
  field f item := match f with f_name => name item | f_description => description item end;
  field_ar f item :=
    match f with f_name => name_ar item | f_description => description_ar item end
|}.

#[global] Instance Category_localized : Localized Category := {|
  field f c := match f with f_name => cat_name c | f_description => None end;
  field_ar f c := match f with f_name => cat_name_ar c | f_description => None end
|}.

(** [a || b] where [a] is a string or missing and [b] a string. *)
Definition str_or (a : option string) (b : string) : string :=
  match a with
  | Some (String c s) => String c s
  | _ => b
  end.

Definition getText {T} `{Localized T} (item : option T) (f : Field)
    (language : Language) : string :=
  match item with
  | None => ""
  | Some item =>
      match language with
      | ar => str_or (field_ar f item) (str_or (field f item) "")
      | en => str_or (field f item) ""
      end
  end.

(** *** The buttons of the item cards and of the order summary *)

(** [cart.find(ci => ci.name === item.name)?.quantity || 0] *)
Definition cardQuantity (item : MenuItem) (p : Page) : Z :=
  match find (same_name (name item)) (cart p) with
  | Some ci => JS.or0 (line_quantity ci)
  | None => 0
  end.

(** The [+] button of a card: [addToCart(item)]. *)
Definition cardPlus (item : MenuItem) (p : Page) : Page := addToCart (Some item) 1 p.

(** The [-] button of a card. *)
Definition cardMinus (item : MenuItem) (p : Page) : Page :=
  match find (same_name (name item)) (cart p) with
  | Some cartItem => updateQuantity (name item) (line_quantity cartItem - 1) p
  | None => p
  end.

(** The buttons of a line of the order summary. *)
Definition linePlus (item : CartLine) (p : Page) : Page :=
  updateQuantity (line_name item) (line_quantity item + 1) p.

Definition lineMinus (item : CartLine) (p : Page) : Page :=
  updateQuantity (line_name item) (line_quantity item - 1) p.

Definition lineRemove (item : CartLine) (p : Page) : Page :=
  removeFromCart (line_name item) p.

(** The unit price shown on a line of the order summary; the first copy
    calls [item.price.toLocaleString()], which throws on [undefined]
    ([None]); the second interpolates [item.price]. *)
Definition eachLabel (language : Language) : string :=
  match language with en => "each" | ar => "للقطعة" end.

Definition V1_eachPrice (toLocaleString : JS.Num -> string) (language : Language)
    (item : CartLine) : option string :=
  match line_price item with
  | Some n => Some (currency language ++ " " ++ toLocaleString (JS.Fin n) ++ " "
                      ++ eachLabel language)
  | None => None
  end.

(** *** Modals and the events of the page *)

Definition setLanguage (l : Language) (p : Page) : Page :=
  {| cart := cart p; orderNotes := orderNotes p; language := l;
     selectedCategory := selectedCategory p; searchQuery := searchQuery p;
     priceSort := priceSort p |}.

Definition setSelectedCategory (categoryId : string) (p : Page) : Page :=
  {| cart := cart p; orderNotes := orderNotes p; language := language p;
     selectedCategory := categoryId; searchQuery := searchQuery p;
     priceSort := priceSort p |}.

Definition setPriceSort (mode : SortMode) (p : Page) : Page :=
  {| cart := cart p; orderNotes := orderNotes p; language := language p;
     selectedCategory := selectedCategory p; searchQuery := searchQuery p;
     priceSort := mode |}.

(** [setSearchQuery(e.target.value)] of the search box. *)
Definition setSearchQuery (s : string) (p : Page) : Page :=
  {| cart := cart p; orderNotes := orderNotes p; language := language p;
     selectedCategory := selectedCategory p; searchQuery := s;
     priceSort := priceSort p |}.

Record Ui := {
  page : Page;
  isItemModalOpen : bool;
  selectedItem : option MenuItem;
  isCartOpen : bool
}.

Definition withPage (f : Page -> Page) (u : Ui) : Ui :=
  {| page := f (page u); isItemModalOpen := isItemModalOpen u;
     selectedItem := selectedItem u; isCartOpen := isCartOpen u |}.

Definition setIsItemModalOpen (b : bool) (u : Ui) : Ui :=
  {| page := page u; isItemModalOpen := b; selectedItem := selectedItem u;
     isCartOpen := isCartOpen u |}.

Definition setSelectedItem (item : option MenuItem) (u : Ui) : Ui :=
  {| page := page u; isItemModalOpen := isItemModalOpen u; selectedItem := item;
     isCartOpen := isCartOpen u |}.

Definition setIsCartOpen (b : bool) (u : Ui) : Ui :=
  {| page := page u; isItemModalOpen := isItemModalOpen u;
     selectedItem := selectedItem u; isCartOpen := b |}.

Definition handleItemClick (item : option MenuItem) (u : Ui) : Ui :=
  match item with
  | None => u
  | Some _ => setIsItemModalOpen true (setSelectedItem item u)
  end.

(** The key handler, which is registered while a modal is open. *)
Definition handleEscape (key : string) (u : Ui) : Ui :=
  if bool_decide (key = "Escape") then
    let u := if isItemModalOpen u then setIsItemModalOpen false u else u in
    if isCartOpen u then setIsCartOpen false u else u
  else u.

(** What the visitor can do; an event whose control is not rendered leaves
    the page as it is. *)
Inductive UiEvent :=
| ClickItem (item : option MenuItem)
| ClickCardPlus (item : MenuItem)
| ClickCardMinus (item : MenuItem)
| ClickAddToCart
| ClickCloseItem
| KeyDown (key : string)
| ClickProceed
| ClickCloseCart
| ClickLinePlus (i : nat)
| ClickLineMinus (i : nat)
| ClickLineRemove (i : nat)
| ClickClearAll
| TypeNotes (notes : string)
| ChooseLanguage (l : Language)
| ChooseCategory (categoryId : string)
| ChooseSort (mode : SortMode)
| TypeQuery (query : string).

Definition itemModalShown (u : Ui) : bool :=
  isItemModalOpen u && bool_decide (is_Some (selectedItem u)).

Definition summaryShown (u : Ui) : bool :=
  isCartOpen u && negb (bool_decide (cart (page u) = [])).

Definition onLine (i : nat) (f : CartLine -> Page -> Page) (u : Ui) : Ui :=
  if summaryShown u then
    match cart (page u) !! i with
    | Some item => withPage (f item) u
    | None => u
    end
  else u.

Definition ui_step (u : Ui) (e : UiEvent) : Ui :=
  match e with
  | ClickItem item => handleItemClick item u
  | ClickCardPlus item => withPage (cardPlus item) u
  | ClickCardMinus item => withPage (cardMinus item) u
  | ClickAddToCart =>
      if itemModalShown u
      then setIsItemModalOpen false (withPage (addToCart (selectedItem u) 1) u)
      else u
  | ClickCloseItem => if itemModalShown u then setIsItemModalOpen false u else u
  | KeyDown key =>
      if isItemModalOpen u || isCartOpen u then handleEscape key u else u
  | ClickProceed =>
      if 0 <? getTotalItems (page u) then setIsCartOpen true u else u
  | ClickCloseCart => if isCartOpen u then setIsCartOpen false u else u
  | ClickLinePlus i => onLine i linePlus u
  | ClickLineMinus i => onLine i lineMinus u
  | ClickLineRemove i => onLine i lineRemove u
  | ClickClearAll => if summaryShown u then withPage clearCart u else u
  | TypeNotes notes => if summaryShown u then withPage (setOrderNotes notes) u else u
  | ChooseLanguage l => withPage (setLanguage l) u
  | ChooseCategory categoryId => withPage (setSelectedCategory categoryId) u
  | ChooseSort mode => withPage (setPriceSort mode) u
  | TypeQuery query => withPage (setSearchQuery query) u
  end.

Definition ui_run (es : list UiEvent) (u : Ui) : Ui := fold_left ui_step es u.

(** The page as it is first rendered. *)
Definition initialUi (u : Ui) : Prop :=
  cart (page u) = [] /\ isItemModalOpen u = false /\ selectedItem u = None /\
  isCartOpen u = false.

(** *** The grid *)

(** [filteredItems.slice(0, visibleItems)]; [visibleItems] only ever holds the
    constant it starts with, 1000 in the first copy and 8 in the second. *)
Definition displayedItems (visibleItems : nat) (menuData : Catalog) (p : Page)
    (h : Store) : list MenuItem :=
  take visibleItems (filteredItems menuData p h).

Definition V1_visibleItems : nat := 1000.

(** [key={item.name || index}], as the string React makes of it. *)
Definition gridKey (index : nat) (item : MenuItem) : string :=
  str_or (name item) (JS.toString (JS.Fin (Z.of_nat index))).

Definition gridKeys (l : list MenuItem) : list string := imap gridKey l.

(** *** Hero images *)

(** [`/images/hero/${categoryData?.heroImage || 'trays.png'}`] *)
Definition heroSrc (categoryData : option Category) : string :=
  "/images/hero/" ++ str_or (categoryData ≫= heroImage) "trays.png".

Definition getHeroImageSrc (menuData : Catalog) (p : Page) : string :=
  heroSrc (menuData !! selectedCategory p).

(** The images that [preloadAllHeroImages] requests: one per category id. *)
Definition preloadAllHeroImages (menuData : Catalog) : list (string * string) :=
  map (fun entry => (fst entry, heroSrc (menuData !! fst entry))) (map_to_list menuData).

(** *** Image placeholders *)

(** [setImageLoadStates(prev => ({ ...prev, [itemName]: true }))] *)
Definition handleImageLoad (itemName : option string) (states : gmap string bool)
    : gmap string bool :=
  <[JS.str itemName := true]> states.

(** [imageLoadStates[item.name]] as a condition. *)
Definition imageLoaded (itemName : option string) (states : gmap string bool) : bool :=
  default false (states !! JS.str itemName).

(** *** Scrolling the category bar *)

(** Second copy: the arrow buttons.  The result is the [left] of the
    [scrollBy] request. *)
Definition scrollCategories (direction : string) (language : Language) : Z :=
  let scrollAmount := 200 in
  let actualDirection :=
    match language with
    | ar => if bool_decide (direction = "left") then "right" else "left"
    | en => direction
    end in
  if bool_decide (actualDirection = "left") then - scrollAmount else scrollAmount.

(** First copy: dragging.  [el_offsetLeft] and [el_scrollLeft] are the
    properties of the scrolled element; the browser keeps an assigned
    [scrollLeft] within the scrollable range, which [clamp] stands for. *)
Record Scroller := {
  isDragging : bool;
  startX : Z;
  scrollLeft : Z;
  el_offsetLeft : Z;
  el_scrollLeft : Z
}.

Inductive PointerEvent :=
| MouseDown (pageX : Z)
| MouseMove (pageX : Z)
| MouseUp
| MouseLeave
| TouchStart (pageX : Z)
| TouchMove (pageX : Z)
| TouchEnd.

Section Drag.
Variable clamp : Z -> Z.

Definition handleMouseDown (pageX : Z) (s : Scroller) : Scroller :=
  {| isDragging := true; startX := pageX - el_offsetLeft s;
     scrollLeft := el_scrollLeft s;
     el_offsetLeft := el_offsetLeft s; el_scrollLeft := el_scrollLeft s |}.

Definition stopDragging (s : Scroller) : Scroller :=
  {| isDragging := false; startX := startX s; scrollLeft := scrollLeft s;
     el_offsetLeft := el_offsetLeft s; el_scrollLeft := el_scrollLeft s |}.

Definition handleMouseMove (pageX : Z) (s : Scroller) : Scroller :=
  if negb (isDragging s) then s
  else
    let x := pageX - el_offsetLeft s in
    let walk := (x - startX s) * 2 in
    {| isDragging := isDragging s; startX := startX s; scrollLeft := scrollLeft s;
       el_offsetLeft := el_offsetLeft s;
       el_scrollLeft := clamp (scrollLeft s - walk) |}.

Definition pointer_step (s : Scroller) (e : PointerEvent) : Scroller :=
  match e with
  | MouseDown pageX | TouchStart pageX => handleMouseDown pageX s
  | MouseMove pageX | TouchMove pageX => handleMouseMove pageX s
  | MouseUp | MouseLeave | TouchEnd => stopDragging s
  end.
End Drag.

(** *** Vocabulary for the rest of the page *)

Fixpoint sumQuantities (c : list CartLine) : Z :=
  match c with
  | [] => 0
  | l :: c' => line_quantity l + sumQuantities c'
  end.

(** The quantity and the amount that the line of a name stands for. *)
Definition quantityIn (n : option string) (p : Page) : Z :=
  match lineOf n p with
  | Some l => line_quantity l
  | None => 0
  end.

Definition amountIn (n : option string) (p : Page) : Z :=
  match lineOf n p with
  | Some l => line_quantity l * unitPrice l
  | None => 0
  end.

(** The unit price that one more [item] is charged at on page [p]. *)
Definition chargedPrice (item : MenuItem) (p : Page) : Z :=
  match lineOf (name item) p with
  | Some l => unitPrice l
  | None => JS.opt_or0 (cartPrice item)
  end.

(** An item whose price is not the empty array. *)
Definition priced (item : MenuItem) : Prop := price item <> PArr [].

Definition addsPriced (op : CartOp) : Prop :=
  match op with
  | AddToCart (Some item) _ => priced item
  | _ => True
  end.

Definition isMove (e : PointerEvent) : Prop :=
  match e with
  | MouseMove _ | TouchMove _ => True
  | _ => False
  end.

Definition pointerX (e : PointerEvent) : Z :=
  match e with
  | MouseDown x | MouseMove x | TouchStart x | TouchMove x => x
  | _ => 0
  end.

(** What a drag that started at [x0] on scroller [s] keeps fixed. *)
Definition dragging (s : Scroller) (x0 : Z) (s' : Scroller) : Prop :=
  isDragging s' = true /\ startX s' = x0 - el_offsetLeft s /\
  scrollLeft s' = el_scrollLeft s /\ el_offsetLeft s' = el_offsetLeft s.

(** What every state of the page satisfies. *)
Definition ui_inv (u : Ui) : Prop :=
  uniqueNames (page u) /\ positiveQuantities (page u) /\
  (isItemModalOpen u = true -> is_Some (selectedItem u)).

Definition firstRender : Ui :=
  {| page := emptyPage; isItemModalOpen := false; selectedItem := None;
     isCartOpen := false |}.

(** The load and error events of the images, by item name. *)
Definition settle (states : gmap string bool) (names : list (option string))
    : gmap string bool :=
  fold_left (fun st n => handleImageLoad n st) names states.

(** * Properties *)

(** ** Cart store *)

Section CartFacts.

Lemma or0_id n : JS.or0 n = n.
Proof. unfold JS.or0. destruct (Z.eqb_spec n 0); lia. Qed.

Lemma opt_or0_unitPrice l : JS.opt_or0 (line_price l) = unitPrice l.
Proof. unfold JS.opt_or0, unitPrice. destruct (line_price l); auto using or0_id. Qed.


Lemma reduce_total c : forall acc,
  fold_left (fun sum item =>
               sum + JS.opt_or0 (line_price item) * JS.or0 (line_quantity item)) c acc
  = acc + sumLines c.
Proof.
  induction c as [|l c IH]; intros acc; simpl.
  - lia.
  - rewrite IH, or0_id, opt_or0_unitPrice. lia.
Qed.

Lemma getTotalPrice_sumLines p : getTotalPrice p = sumLines (cart p).
Proof. unfold getTotalPrice. now rewrite reduce_total. Qed.

Lemma run_cons op ops p : run (op :: ops) p = run ops (apply_op p op).
Proof. reflexivity. Qed.

Lemma run_snoc ops op p : run (ops ++ [op]) p = apply_op (run ops p) op.
Proof. unfold run. now rewrite fold_left_app. Qed.

(** *** Looking a line up by name *)

Lemma same_name_true n l : same_name n l = true <-> line_name l = n.
Proof. unfold same_name. apply bool_decide_eq_true. Qed.

Lemma same_name_with_quantity n l q :
  same_name n (with_quantity l q) = same_name n l.
Proof. reflexivity. Qed.

Lemma find_absent n c :
  find (same_name n) c = None -> forall l, In l c -> same_name n l = false.
Proof. intros H l Hl. exact (find_none _ _ H l Hl). Qed.

Lemma find_absent_names n c :
  find (same_name n) c = None -> ~ In n (map line_name c).
Proof.
  intros H Hin. apply in_map_iff in Hin as (l & Hn & Hl).
  apply (find_absent _ _ H) in Hl.
  apply same_name_true in Hn. congruence.
Qed.

Lemma find_map_keeping n (g : CartLine -> CartLine) c :
  (forall l, same_name n (g l) = same_name n l) ->
  find (same_name n) (map g c) = g <$> find (same_name n) c.
Proof.
  intros Hg. induction c as [|l c IH]; simpl; [reflexivity|].
  rewrite Hg. destruct (same_name n l); [reflexivity | exact IH].
Qed.

Lemma find_appended n c l :
  find (same_name n) c = None -> same_name n l = true ->
  find (same_name n) (c ++ [l]) = Some l.
Proof.
  intros Hc Hl. induction c as [|x c IH]; simpl in *.
  - now rewrite Hl.
  - destruct (same_name n x); [discriminate | auto].
Qed.

Lemma map_untouched n (g : CartLine -> CartLine) c :
  find (same_name n) c = None ->
  map (fun l => if same_name n l then g l else l) c = c.
Proof.
  intros H. rewrite <- (map_id c) at 2. apply map_ext_in.
  intros l Hl. now rewrite (find_absent _ _ H l Hl).
Qed.

Lemma names_after_update n (g : CartLine -> CartLine) c :
  (forall l, line_name (g l) = line_name l) ->
  map line_name (map (fun l => if same_name n l then g l else l) c) = map line_name c.
Proof.
  intros Hg. rewrite map_map. apply map_ext. intros l.
  destruct (same_name n l); auto.
Qed.

Lemma names_after_filter (f : CartLine -> bool) c :
  NoDup (map line_name c) -> NoDup (map line_name (List.filter f c)).
Proof.
  induction c as [|l c IH]; simpl; intros H; [constructor|].
  apply NoDup_cons in H as [Hnotin Hnd]. destruct (f l); simpl; auto.
  apply NoDup_cons_2; auto.
  rewrite list_elem_of_In in *. intros Hin. apply Hnotin.
  apply in_map_iff in Hin as (x & Hx & Hxin).
  apply filter_In in Hxin as [Hxin _]. apply in_map_iff. eauto.
Qed.

(** *** The cart after each operation *)

Lemma addToCart_existing item q p existing :
  lineOf (name item) p = Some existing ->
  cart (addToCart (Some item) q p)
  = map (fun l => if same_name (name item) l
                  then with_quantity l (line_quantity l + q) else l) (cart p).
Proof. unfold lineOf, addToCart. simpl. now intros ->. Qed.

Lemma addToCart_new item q p :
  lineOf (name item) p = None ->
  cart (addToCart (Some item) q p)
  = (cart p ++ [ {| line_item := item; line_price := cartPrice item;
                    line_quantity := q |} ])%list.
Proof. unfold lineOf, addToCart. simpl. now intros ->. Qed.

Lemma Page_eq p p' :
  cart p = cart p' -> orderNotes p = orderNotes p' -> language p = language p' ->
  selectedCategory p = selectedCategory p' -> searchQuery p = searchQuery p' ->
  priceSort p = priceSort p' -> p = p'.
Proof. destruct p, p'; simpl; intros; congruence. Qed.

Lemma addToCart_frame item q p :
  let p' := addToCart item q p in
  orderNotes p' = orderNotes p /\ language p' = language p /\
  selectedCategory p' = selectedCategory p /\ searchQuery p' = searchQuery p /\
  priceSort p' = priceSort p.
Proof. destruct item; simpl; auto. Qed.

Lemma lineOf_addToCart item q p :
  lineOf (name item) (addToCart (Some item) q p)
  = Some (match lineOf (name item) p with
          | Some existing => with_quantity existing (line_quantity existing + q)
          | None => {| line_item := item; line_price := cartPrice item;
                       line_quantity := q |}
          end).
Proof.
  destruct (lineOf (name item) p) as [existing|] eqn:E; unfold lineOf in *.
  - rewrite (addToCart_existing _ _ _ _ E).
    rewrite (find_map_keeping (name item)
               (fun l => if same_name (name item) l
                         then with_quantity l (line_quantity l + q) else l)).
    + rewrite E. simpl.
      apply find_some in E as [_ ->]. reflexivity.
    + intros l. destruct (same_name (name item) l) eqn:El; auto.
  - rewrite (addToCart_new _ _ _ E). apply find_appended; auto.
    apply same_name_true. reflexivity.
Qed.

End CartFacts.

(** C1. In every cart state reached from the empty cart by addToCart,
    updateQuantity, removeFromCart and clearCart, [getTotalPrice] is the sum
    over the lines of quantity times unit price, a missing price counting
    as 0. *)
Theorem total_price_is_sum_of_lines p :
  reachable p -> getTotalPrice p = sumLines (cart p).
Proof. intros _. apply getTotalPrice_sumLines. Qed.

Lemma total_price_is_sum_of_lines_witness :
  let p := run [AddToCart (Some koshari) 1; AddToCart (Some fattah) 2] emptyPage in
  reachable p /\ getTotalPrice p = 205 /\ getTotalPrice p = sumLines (cart p).
Proof.
  assert (R : reachable
                (run [AddToCart (Some koshari) 1; AddToCart (Some fattah) 2] emptyPage)).
  { exists emptyPage, [AddToCart (Some koshari) 1; AddToCart (Some fattah) 2].
    split; reflexivity. }
  split; [exact R|]. split; [reflexivity|].
  apply (total_price_is_sum_of_lines _ R).
Defined.

(** The scenario of the menu with one Koshari and two Fattah: three items,
    [45 + 2 * 80 = 205]. *)
Example scenario_cart :
  let p := run [AddToCart (Some koshari) 1; AddToCart (Some fattah) 1;
                AddToCart (Some fattah) 1] emptyPage in
  getTotalItems p = 3 /\ getTotalPrice p = 205 /\
  map line_price (cart p) = [Some 45; Some 80].
Proof. repeat split. Qed.

(** The price charged for a range is its first element, also when a later
    element is smaller. *)
Example cartPrice_takes_first :
  let item := {| name := Some "Tray"; name_ar := None; description := None;
                 description_ar := None; price := PArr [120; 80]; image := None |} in
  cartPrice item = Some 120 /\ minPriceOf item = JS.Fin 80.
Proof. split; reflexivity. Qed.

Section AddTwice.
Variables (item item' : MenuItem) (q1 q2 : Z) (p : Page).
Hypothesis same : name item' = name item.

Let first := addToCart (Some item) q1 p.
Let second := addToCart (Some item') q2 first.
Let single := addToCart (Some item) (q1 + q2) p.

Lemma lineOf_first :
  lineOf (name item) first
  = Some (match lineOf (name item) p with
          | Some existing => with_quantity existing (line_quantity existing + q1)
          | None => {| line_item := item; line_price := cartPrice item;
                       line_quantity := q1 |}
          end).
Proof. apply lineOf_addToCart. Qed.

Lemma cart_second_single : cart second = cart single.
Proof.
  pose proof lineOf_first as Hf.
  assert (Hf' : lineOf (name item') first = lineOf (name item) first) by now rewrite same.
  rewrite Hf in Hf'.
  subst second. rewrite (addToCart_existing _ _ _ _ Hf'). rewrite same.
  destruct (lineOf (name item) p) as [existing|] eqn:E.
  - subst first single.
    rewrite !(addToCart_existing _ _ _ _ E), map_map.
    apply map_ext. intros l.
    destruct (same_name (name item) l) eqn:El.
    + rewrite same_name_with_quantity, El. unfold with_quantity; simpl.
      f_equal. lia.
    + now rewrite El.
  - subst first single.
    rewrite !(addToCart_new _ _ _ E), map_app.
    rewrite (map_untouched _ (fun l => with_quantity l (line_quantity l + q2)) _ E).
    simpl. unfold same_name, line_name; simpl.
    rewrite bool_decide_eq_true_2 by reflexivity. reflexivity.
Qed.

Lemma second_single : second = single.
Proof.
  apply Page_eq; [exact cart_second_single | | | | | ];
    subst second first single;
    repeat match goal with
           | |- context [addToCart ?i ?q ?r] =>
               let H := fresh in
               pose proof (addToCart_frame i q r) as H; simpl in H;
               destruct H as (-> & -> & -> & -> & ->)
           end; reflexivity.
Qed.

Lemma price_kept : priceOf (name item) second = priceOf (name item) first.
Proof.
  unfold priceOf. rewrite second_single. subst single first.
  rewrite !lineOf_addToCart.
  destruct (lineOf (name item) p); reflexivity.
Qed.
End AddTwice.

Lemma cartPrice_first item x xs :
  price item = PArr (x :: xs) -> cartPrice item = Some x.
Proof. unfold cartPrice. now intros ->. Qed.

Lemma fold_min_least xs : forall x, Forall (Z.le x) xs -> fold_left Z.min xs x = x.
Proof.
  induction xs as [|y xs IH]; intros x H; simpl; [reflexivity|].
  apply Forall_cons in H as [Hy Hxs].
  rewrite Z.min_l by lia. auto.
Qed.

(** C2. Adding an item and then adding an item of the same name again gives
    the line the quantity that one call with the summed quantity gives it,
    and the line keeps the unit price it had after the first call: when the
    first call created the line, the price resolved from the first item (the
    first element of a range, which is its minimum when the range is given
    in ascending order; the scalar; 0 when the price is missing), whatever
    the price of the second item. *)
Theorem addToCart_twice (item item' : MenuItem) (q1 q2 : Z) (p : Page) :
  name item' = name item ->
  let first := addToCart (Some item) q1 p in
  let second := addToCart (Some item') q2 first in
  let single := addToCart (Some item) (q1 + q2) p in
  second = single /\
  quantityOf (name item) second = quantityOf (name item) single /\
  is_Some (quantityOf (name item) second) /\
  priceOf (name item) second = priceOf (name item) first /\
  (lineOf (name item) p = None ->
     quantityOf (name item) second = Some (q1 + q2) /\
     priceOf (name item) second = Some (cartPrice item)) /\
  (forall x xs, price item = PArr (x :: xs) ->
     cartPrice item = Some x /\
     (Forall (Z.le x) xs -> JS.Math_min (x :: xs) = JS.Fin x)) /\
  (forall n, price item = PNum n -> cartPrice item = Some n) /\
  (price item = PNull \/ price item = PUndefined \/ price item = PEmptyStr ->
     cartPrice item = Some 0).
Proof.
  intros same first second single.
  pose proof (second_single item item' q1 q2 p same) as Heq.
  fold first in Heq. fold second in Heq. fold single in Heq.
  repeat apply conj.
  - exact Heq.
  - now rewrite Heq.
  - rewrite Heq. unfold quantityOf. subst single. rewrite lineOf_addToCart.
    simpl. eauto.
  - apply price_kept. exact same.
  - intros Hnone. rewrite Heq. unfold quantityOf, priceOf. subst single.
    rewrite lineOf_addToCart, Hnone. split; reflexivity.
  - intros x xs Hp. split.
    + eapply cartPrice_first; eauto.
    + intros Hle. simpl. f_equal. now apply fold_min_least.
  - intros n Hp. unfold cartPrice. rewrite Hp. now rewrite or0_id.
  - intros Hp. unfold cartPrice. destruct Hp as [-> | [-> | ->]]; reflexivity.
Qed.

Lemma addToCart_twice_witness :
  let dearer :=
    {| name := Some "Fattah"; name_ar := None; description := None;
       description_ar := None; price := PNum 999; image := None |} in
  let second := addToCart (Some dearer) 2 (addToCart (Some fattah) 1 emptyPage) in
  quantityOf (Some "Fattah") second = Some 3 /\
  priceOf (Some "Fattah") second = Some (Some 80).
Proof.
  intros dearer second.
  destruct (addToCart_twice fattah dearer 1 2 emptyPage eq_refl)
    as (_ & _ & _ & _ & Hnew & _).
  destruct (Hnew eq_refl) as [Hq Hp].
  split; [exact Hq | exact Hp].
Defined.

Create HintDb cart.

Section CartInvariant.

Lemma addToCart_unique item q p : uniqueNames p -> uniqueNames (addToCart item q p).
Proof.
  unfold uniqueNames. destruct item as [item|]; [|auto]. intros H.
  destruct (lineOf (name item) p) as [existing|] eqn:E.
  - rewrite (addToCart_existing _ _ _ _ E).
    now rewrite (names_after_update _ (fun l => with_quantity l (line_quantity l + q))).
  - rewrite (addToCart_new _ _ _ E), map_app. simpl.
    apply NoDup_app. split; [exact H|]. split; [|apply NoDup_singleton].
    intros n Hn Hn'. apply list_elem_of_In in Hn.
    apply list_elem_of_singleton in Hn'. subst n.
    exact (find_absent_names _ _ E Hn).
Qed.

Lemma removeFromCart_unique n p : uniqueNames p -> uniqueNames (removeFromCart n p).
Proof. unfold uniqueNames. simpl. apply names_after_filter. Qed.

Lemma updateQuantity_unique n q p : uniqueNames p -> uniqueNames (updateQuantity n q p).
Proof.
  unfold updateQuantity. destruct (q <=? 0); [apply removeFromCart_unique|].
  unfold uniqueNames. simpl. intros H.
  now rewrite (names_after_update _ (fun l => with_quantity l q)).
Qed.

#[local] Hint Resolve addToCart_unique removeFromCart_unique updateQuantity_unique : cart.

Lemma apply_op_unique op p : uniqueNames p -> uniqueNames (apply_op p op).
Proof.
  destruct op; simpl; auto with cart.
  intros _. unfold uniqueNames. simpl. constructor.
Qed.

Lemma addToCart_positive item q p :
  0 < q -> positiveQuantities p -> positiveQuantities (addToCart item q p).
Proof.
  unfold positiveQuantities. destruct item as [item|]; [|auto]. intros Hq H.
  destruct (lineOf (name item) p) as [existing|] eqn:E.
  - rewrite (addToCart_existing _ _ _ _ E).
    rewrite List.Forall_forall in *. intros l' Hin.
    apply in_map_iff in Hin as (l & <- & Hl). specialize (H l Hl).
    destruct (same_name (name item) l); simpl; lia.
  - rewrite (addToCart_new _ _ _ E).
    apply Forall_app. split; [exact H|]. constructor; [exact Hq | constructor].
Qed.

Lemma removeFromCart_positive n p :
  positiveQuantities p -> positiveQuantities (removeFromCart n p).
Proof.
  unfold positiveQuantities. simpl. rewrite !List.Forall_forall.
  intros H l Hl. apply filter_In in Hl as [Hl _]. auto.
Qed.

Lemma updateQuantity_positive n q p :
  positiveQuantities p -> positiveQuantities (updateQuantity n q p).
Proof.
  unfold updateQuantity. destruct (Z.leb_spec q 0) as [Hq|Hq];
    [apply removeFromCart_positive|].
  unfold positiveQuantities. simpl. rewrite !List.Forall_forall.
  intros H l' Hin. apply in_map_iff in Hin as (l & <- & Hl). specialize (H l Hl).
  destruct (same_name n l); simpl; lia.
Qed.

#[local] Hint Resolve addToCart_positive removeFromCart_positive
  updateQuantity_positive : cart.

Lemma apply_op_positive op p :
  addsPositive op -> positiveQuantities p -> positiveQuantities (apply_op p op).
Proof.
  destruct op; simpl; intros Hop; auto with cart.
  intros _. unfold positiveQuantities. simpl. constructor.
Qed.

Lemma run_unique ops : forall p, uniqueNames p -> uniqueNames (run ops p).
Proof.
  induction ops as [|op ops IH]; intros p H; [exact H|].
  rewrite run_cons. apply IH, apply_op_unique, H.
Qed.

Lemma run_positive ops : forall p,
  Forall addsPositive ops -> positiveQuantities p -> positiveQuantities (run ops p).
Proof.
  induction ops as [|op ops IH]; intros p Hops H; [exact H|].
  apply Forall_cons in Hops as [Hop Hops].
  rewrite run_cons. apply IH; [exact Hops|]. now apply apply_op_positive.
Qed.

End CartInvariant.

(** C3, as the code has it. In every cart state reached from the empty cart
    by addToCart, updateQuantity, removeFromCart and clearCart the lines are
    unique by name; and when every addToCart of the sequence was given a
    positive quantity, no line has a quantity of 0 or less. *)
Theorem cart_lines_unique_and_positive (p0 : Page) (ops : list CartOp) :
  fresh_page p0 ->
  uniqueNames (run ops p0) /\
  (Forall addsPositive ops -> positiveQuantities (run ops p0)).
Proof.
  unfold fresh_page. intros Hempty. split.
  - apply run_unique. unfold uniqueNames. rewrite Hempty. constructor.
  - intros Hops. apply run_positive; [exact Hops|].
    unfold positiveQuantities. rewrite Hempty. constructor.
Qed.

Lemma cart_lines_unique_and_positive_witness :
  let p := run [AddToCart (Some koshari) 1; AddToCart (Some fattah) 1;
                UpdateQuantity (Some "Koshari") 0; AddToCart (Some fattah) 1] emptyPage in
  uniqueNames p /\ positiveQuantities p.
Proof.
  intros p.
  destruct (cart_lines_unique_and_positive emptyPage
              [AddToCart (Some koshari) 1; AddToCart (Some fattah) 1;
               UpdateQuantity (Some "Koshari") 0; AddToCart (Some fattah) 1] eq_refl)
    as [Hu Hp].
  split; [exact Hu|]. apply Hp.
  repeat constructor.
Defined.

(** C3 as stated fails: [addToCart] stores whatever quantity it is given, so
    adding an item with quantity 0 to the empty cart leaves a line whose
    quantity is 0. *)
Lemma zero_quantity_line_reachable :
  ~ (forall p, reachable p -> uniqueNames p /\ positiveQuantities p).
Proof.
  intros H.
  assert (R : reachable (run [AddToCart (Some koshari) 0] emptyPage)).
  { exists emptyPage, [AddToCart (Some koshari) 0]. split; reflexivity. }
  destruct (H _ R) as [_ Hpos].
  unfold positiveQuantities in Hpos. simpl in Hpos.
  apply Forall_cons in Hpos as [Hq _]. simpl in Hq. lia.
Qed.

Lemma lookup_map_line (g : CartLine -> CartLine) (c : list CartLine) :
  forall i l, c !! i = Some l -> map g c !! i = Some (g l).
Proof.
  induction c as [|x c IH]; intros [|i] l H; simpl in *; try discriminate.
  - now inversion H.
  - auto.
Qed.

(** C4. [updateQuantity(name, 0)] and [removeFromCart(name)] give the same
    page; so does [updateQuantity(name, q)] for every [q <= 0]; for [q > 0]
    the line of that name gets exactly the quantity [q], whatever it had,
    and nothing else changes. *)
Theorem updateQuantity_spec (itemName : option string) (p : Page) :
  updateQuantity itemName 0 p = removeFromCart itemName p /\
  (forall q, q <= 0 -> updateQuantity itemName q p = removeFromCart itemName p) /\
  (forall q, 0 < q ->
     let p' := updateQuantity itemName q p in
     (forall i l, cart p !! i = Some l ->
        cart p' !! i = Some (if same_name itemName l then with_quantity l q else l)) /\
     length (cart p') = length (cart p) /\
     (forall l', In l' (cart p') -> line_name l' = itemName -> line_quantity l' = q) /\
     (is_Some (lineOf itemName p) -> quantityOf itemName p' = Some q) /\
     orderNotes p' = orderNotes p).
Proof.
  split; [reflexivity|]. split.
  - intros q Hq. unfold updateQuantity.
    destruct (Z.leb_spec q 0); [reflexivity | lia].
  - intros q Hq p'. subst p'. unfold updateQuantity.
    destruct (Z.leb_spec q 0); [lia|]. simpl. repeat apply conj.
    + intros i l Hl.
      exact (lookup_map_line
               (fun item => if same_name itemName item then with_quantity item q else item)
               _ _ _ Hl).
    + apply length_map.
    + intros l' Hin Hn. apply in_map_iff in Hin as (l & <- & Hl).
      destruct (same_name itemName l) eqn:E; [reflexivity|].
      apply same_name_true in Hn. congruence.
    + intros [l Hl]. unfold quantityOf, lineOf in *. simpl.
      rewrite (find_map_keeping itemName
                 (fun item => if same_name itemName item then with_quantity item q else item)).
      * rewrite Hl. simpl. apply find_some in Hl as [_ ->]. reflexivity.
      * intros x. destruct (same_name itemName x) eqn:E; auto.
    + reflexivity.
Qed.

Lemma updateQuantity_spec_witness :
  let p := run [AddToCart (Some koshari) 1; AddToCart (Some fattah) 2] emptyPage in
  updateQuantity (Some "Fattah") (-1) p = removeFromCart (Some "Fattah") p /\
  quantityOf (Some "Fattah") (updateQuantity (Some "Fattah") 7 p) = Some 7.
Proof.
  intros p.
  destruct (updateQuantity_spec (Some "Fattah") p) as (_ & Hle & Hgt).
  split.
  - apply Hle. lia.
  - destruct (Hgt 7 ltac:(lia)) as (_ & _ & _ & Hq & _).
    apply Hq. eexists. reflexivity.
Defined.

(** ** The built-in sort *)

Section StableSort.
Context {A : Type} (comparefn : A -> A -> JS.Num) (le : A -> A -> Prop).

Hypothesis compare_le :
  forall x y, JS.sortCompare (comparefn x y) <> Gt <-> le x y.
Hypothesis le_total : forall x y, le x y \/ le y x.
Hypothesis le_trans : forall x y z, le x y -> le y z -> le x z.

Lemma sort_insert_perm x l : Permutation (x :: l) (JS.sort_insert comparefn x l).
Proof.
  induction l as [|y l IH]; simpl; [reflexivity|].
  destruct (JS.sortCompare (comparefn x y)); try reflexivity.
  rewrite perm_swap. now apply perm_skip.
Qed.

Lemma sort_perm l : Permutation l (JS.sort comparefn l).
Proof.
  induction l as [|x l IH]; simpl; [reflexivity|].
  rewrite <- sort_insert_perm. now apply perm_skip.
Qed.

Lemma sort_insert_sorted x l :
  StronglySorted le l -> StronglySorted le (JS.sort_insert comparefn x l).
Proof.
  induction 1 as [|y l Hs IH Hy]; simpl.
  - repeat constructor.
  - destruct (JS.sortCompare (comparefn x y)) eqn:E.
    + assert (Hxy : le x y) by (apply compare_le; congruence).
      constructor; [now constructor|].
      constructor; [exact Hxy|].
      eapply List.Forall_impl; [|exact Hy]. intros z Hz. eauto.
    + assert (Hxy : le x y) by (apply compare_le; congruence).
      constructor; [now constructor|].
      constructor; [exact Hxy|].
      eapply List.Forall_impl; [|exact Hy]. intros z Hz. eauto.
    + assert (Hyx : le y x).
      { destruct (le_total x y) as [Hxy|]; [|assumption].
        apply compare_le in Hxy. congruence. }
      constructor; [exact IH|].
      rewrite List.Forall_forall. intros z Hz.
      apply (Permutation_in _ (Permutation_sym (sort_insert_perm x l))) in Hz.
      destruct Hz as [<-|Hz]; [exact Hyx|].
      rewrite List.Forall_forall in Hy. auto.
Qed.

Lemma sort_sorted l : StronglySorted le (JS.sort comparefn l).
Proof.
  induction l as [|x l IH]; simpl; [constructor|].
  now apply sort_insert_sorted.
Qed.

(** Stability: a family of elements none of which is ordered strictly
    before another keeps its order. *)
Variable P : A -> bool.
Hypothesis P_tied : forall x y, P x = true -> P y = true -> le x y.

Lemma sort_insert_stable x l :
  List.filter P (JS.sort_insert comparefn x l) = List.filter P (x :: l).
Proof.
  induction l as [|y l IH]; [reflexivity|].
  cbn [JS.sort_insert].
  destruct (JS.sortCompare (comparefn x y)) eqn:E; try reflexivity.
  cbn [List.filter] in *. rewrite IH.
  destruct (P x) eqn:Px, (P y) eqn:Py; try reflexivity.
  exfalso. assert (Hxy : le x y) by auto.
  apply compare_le in Hxy. congruence.
Qed.

Lemma sort_stable l : List.filter P (JS.sort comparefn l) = List.filter P l.
Proof.
  induction l as [|x l IH]; [reflexivity|].
  cbn [JS.sort]. rewrite sort_insert_stable.
  cbn [List.filter]. now rewrite IH.
Qed.
End StableSort.

(** *** The two comparators are consistent orderings *)

Lemma minPriceOf_notNaN item : notNaN (minPriceOf item).
Proof.
  unfold notNaN, minPriceOf.
  destruct (price item) as [| | | n |[|x xs]]; simpl; discriminate.
Qed.

Lemma maxPriceOf_notNaN item : notNaN (maxPriceOf item).
Proof.
  unfold notNaN, maxPriceOf.
  destruct (price item) as [| | | n |[|x xs]]; simpl; discriminate.
Qed.

Lemma sub_sign a b :
  notNaN a -> notNaN b ->
  (JS.sortCompare (JS.sub a b) <> Gt <-> num_le a b).
Proof.
  unfold notNaN. destruct a as [|x| |], b as [|y| |]; simpl; intros Ha Hb;
    try congruence; try (split; [intros _; exact I | discriminate]);
    try (split; [congruence | intros []]).
  destruct (Z.compare_spec (x - y) 0); split; intros; try discriminate;
    try congruence; lia.
Qed.

Lemma num_le_total a b : notNaN a -> notNaN b -> num_le a b \/ num_le b a.
Proof.
  unfold notNaN. destruct a as [|x| |], b as [|y| |]; simpl; intros; try congruence;
    auto; lia.
Qed.

Lemma num_le_trans a b c : num_le a b -> num_le b c -> num_le a c.
Proof.
  destruct a as [|x| |], b as [|y| |], c as [|z| |]; simpl; intros; auto;
    try contradiction; lia.
Qed.

Lemma num_le_refl a : notNaN a -> num_le a a.
Proof. unfold notNaN. destruct a; simpl; intros; auto; try congruence; lia. Qed.

Lemma compareLowHigh_le x y :
  JS.sortCompare (compareLowHigh x y) <> Gt <-> lowHighOrder x y.
Proof. apply sub_sign; apply minPriceOf_notNaN. Qed.

Lemma compareHighLow_le x y :
  JS.sortCompare (compareHighLow x y) <> Gt <-> highLowOrder x y.
Proof. apply sub_sign; apply maxPriceOf_notNaN. Qed.

Lemma lowHigh_sorted l : StronglySorted lowHighOrder (JS.sort compareLowHigh l).
Proof.
  apply sort_sorted.
  - apply compareLowHigh_le.
  - intros x y. apply num_le_total; apply minPriceOf_notNaN.
  - intros x y z. apply num_le_trans.
Qed.

Lemma highLow_sorted l : StronglySorted highLowOrder (JS.sort compareHighLow l).
Proof.
  apply sort_sorted.
  - apply compareHighLow_le.
  - intros x y. apply num_le_total; apply maxPriceOf_notNaN.
  - intros x y z Hxy Hyz. unfold highLowOrder in *. eapply num_le_trans; eauto.
Qed.

Lemma lowHigh_stable k l :
  withKey minPriceOf k (JS.sort compareLowHigh l) = withKey minPriceOf k l.
Proof.
  unfold withKey. apply (sort_stable compareLowHigh lowHighOrder compareLowHigh_le).
  intros x y Hx%bool_decide_eq_true Hy%bool_decide_eq_true.
  unfold lowHighOrder. rewrite Hx, Hy, <- Hx. apply num_le_refl, minPriceOf_notNaN.
Qed.

Lemma highLow_stable k l :
  withKey maxPriceOf k (JS.sort compareHighLow l) = withKey maxPriceOf k l.
Proof.
  unfold withKey. apply (sort_stable compareHighLow highLowOrder compareHighLow_le).
  intros x y Hx%bool_decide_eq_true Hy%bool_decide_eq_true.
  unfold highLowOrder. rewrite Hx, Hy, <- Hx. apply num_le_refl, maxPriceOf_notNaN.
Qed.

(** ** Filter/sort engine: what it returns and what it leaves alone *)

Section Engine.

Lemma fresh_unused (h : Store) : h !! fresh (dom h) = None.
Proof. apply not_elem_of_dom, is_fresh. Qed.

Lemma fresh_unused_before (h0 h : Store) :
  unchanged h0 h -> h0 !! fresh (dom h) = None.
Proof.
  intros Hu. destruct (h0 !! fresh (dom h)) as [v|] eqn:E; [|reflexivity].
  apply Hu in E. rewrite fresh_unused in E. discriminate.
Qed.

Lemma unchanged_refl (h : Store) : unchanged h h.
Proof. intros a v H. exact H. Qed.

Lemma unchanged_write (h0 h : Store) a v :
  unchanged h0 h -> h0 !! a = None -> unchanged h0 (<[a := v]> h).
Proof.
  intros Hu Ha x w Hx. destruct (decide (a = x)) as [->|Hne]; [congruence|].
  rewrite lookup_insert_ne by exact Hne. auto.
Qed.

Lemma contents_write (h : Store) a v : contents (<[a := v]> h) a = v.
Proof. unfold contents. now rewrite lookup_insert_eq. Qed.

Lemma yields_new h0 h v : unchanged h0 h -> yields h0 v (new_array v h).
Proof.
  intros Hu. unfold yields, new_array. simpl.
  pose proof (fresh_unused_before _ _ Hu).
  auto using unchanged_write, contents_write.
Qed.

Lemma yields_spread h0 h a : unchanged h0 h -> yields h0 (contents h a) (spread a h).
Proof. apply yields_new. Qed.

Lemma yields_filter h0 f r h v :
  yields h0 v (r, h) -> yields h0 (List.filter f v) (Array_filter f r h).
Proof.
  intros (Hu & _ & Hv). simpl in *. unfold Array_filter. rewrite Hv.
  now apply yields_new.
Qed.

Lemma yields_sort h0 comparefn r h v :
  yields h0 v (r, h) -> yields h0 (JS.sort comparefn v) (Array_sort comparefn r h).
Proof.
  intros (Hu & Hr & Hv). simpl in *. unfold yields, Array_sort. simpl.
  rewrite Hv. auto using unchanged_write, contents_write.
Qed.

Lemma yields_bind {h0 v w} (m : M loc) (k : loc -> M loc) h :
  yields h0 v (m h) ->
  (forall r h', yields h0 v (r, h') -> yields h0 w (k r h')) ->
  yields h0 w (bind m k h).
Proof. unfold bind. destruct (m h) as [r h']. auto. Qed.

Lemma engine_yields menuData p h a categoryData :
  menuData !! selectedCategory p = Some categoryData ->
  items categoryData = Some a ->
  yields h (sortedBy (priceSort p) (searched p (contents h a)))
         (getFilteredAndSortedItems menuData p h).
Proof.
  intros Hcat Hit. unfold getFilteredAndSortedItems. rewrite Hcat, Hit.
  eapply yields_bind; [apply yields_spread, unchanged_refl|].
  intros r1 h1 H1.
  eapply (yields_bind (w := sortedBy (priceSort p) (searched p (contents h a)))
                      (v := searched p (contents h a))).
  - unfold searched. destruct (nonEmpty (searchQuery p)).
    + now apply yields_filter.
    + exact H1.
  - intros r2 h2 H2. eapply yields_bind; [|intros r3 h3 H3; exact H3].
    unfold sortedBy. destruct (priceSort p).
    + exact H2.
    + now apply yields_sort.
    + now apply yields_sort.
Qed.

Lemma engine_yields_nothing menuData p h :
  (menuData !! selectedCategory p = None \/
   exists categoryData, menuData !! selectedCategory p = Some categoryData /\
                        items categoryData = None) ->
  yields h [] (getFilteredAndSortedItems menuData p h).
Proof.
  unfold getFilteredAndSortedItems.
  intros [-> | (categoryData & -> & ->)]; apply yields_new, unchanged_refl.
Qed.

Lemma engine_frame menuData p h :
  exists v, yields h v (getFilteredAndSortedItems menuData p h).
Proof.
  destruct (menuData !! selectedCategory p) as [categoryData|] eqn:Hcat.
  - destruct (items categoryData) as [a|] eqn:Hit.
    + eexists. eapply engine_yields; eauto.
    + exists []. apply engine_yields_nothing. eauto.
  - exists []. apply engine_yields_nothing. auto.
Qed.

Lemma filteredItems_eq menuData p h its :
  showsCategory menuData p h its ->
  filteredItems menuData p h = sortedBy (priceSort p) (searched p its).
Proof.
  intros (categoryData & a & Hcat & Hit & Ha).
  pose proof (engine_yields menuData p h a categoryData Hcat Hit) as (_ & _ & Hv).
  unfold filteredItems. destruct (getFilteredAndSortedItems menuData p h) as [r h'].
  simpl in Hv. rewrite Hv. unfold contents. now rewrite Ha.
Qed.

End Engine.

(** *** The sort keys *)

Lemma fold_min_is_least xs : forall x, least (fold_left Z.min xs x) (x :: xs).
Proof.
  induction xs as [|y xs IH]; intros x; simpl.
  - split; [now left | repeat constructor; lia].
  - destruct (IH (Z.min x y)) as [Hin Hall].
    apply Forall_cons in Hall as [Hm Hxs]. split.
    + destruct Hin as [Hin|Hin]; [|now right; right].
      rewrite <- Hin. destruct (Z.min_spec x y) as [[_ ->]|[_ ->]]; simpl; auto.
    + repeat constructor; [lia | lia | exact Hxs].
Qed.

Lemma fold_max_is_greatest xs : forall x, greatest (fold_left Z.max xs x) (x :: xs).
Proof.
  induction xs as [|y xs IH]; intros x; simpl.
  - split; [now left | repeat constructor; lia].
  - destruct (IH (Z.max x y)) as [Hin Hall].
    apply Forall_cons in Hall as [Hm Hxs]. split.
    + destruct Hin as [Hin|Hin]; [|now right; right].
      rewrite <- Hin. destruct (Z.max_spec x y) as [[_ ->]|[_ ->]]; simpl; auto.
    + repeat constructor; [lia | lia | exact Hxs].
Qed.

Lemma least_unique m m' l : least m l -> least m' l -> m = m'.
Proof.
  intros [Hin Hall] [Hin' Hall']. rewrite List.Forall_forall in Hall, Hall'.
  specialize (Hall _ Hin'). specialize (Hall' _ Hin). lia.
Qed.

Lemma greatest_unique m m' l : greatest m l -> greatest m' l -> m = m'.
Proof.
  intros [Hin Hall] [Hin' Hall']. rewrite List.Forall_forall in Hall, Hall'.
  specialize (Hall _ Hin'). specialize (Hall' _ Hin). lia.
Qed.

Lemma Math_min_least ps m : least m ps -> JS.Math_min ps = JS.Fin m.
Proof.
  destruct ps as [|x xs]; intros H; [destruct H as [[] _]|].
  simpl. f_equal. eapply least_unique; [apply fold_min_is_least | exact H].
Qed.

Lemma Math_max_greatest ps m : greatest m ps -> JS.Math_max ps = JS.Fin m.
Proof.
  destruct ps as [|x xs]; intros H; [destruct H as [[] _]|].
  simpl. f_equal. eapply greatest_unique; [apply fold_max_is_greatest | exact H].
Qed.

Lemma sort_keys item :
  (forall ps m, price item = PArr ps -> least m ps -> minPriceOf item = JS.Fin m) /\
  (forall ps m, price item = PArr ps -> greatest m ps -> maxPriceOf item = JS.Fin m) /\
  (forall n, price item = PNum n ->
     minPriceOf item = JS.Fin n /\ maxPriceOf item = JS.Fin n) /\
  (price item = PNull \/ price item = PUndefined \/ price item = PEmptyStr ->
     minPriceOf item = JS.Fin 0 /\ maxPriceOf item = JS.Fin 0).
Proof.
  unfold minPriceOf, maxPriceOf. repeat apply conj.
  - intros ps m -> H. now apply Math_min_least.
  - intros ps m -> H. now apply Math_max_greatest.
  - intros n ->. now rewrite or0_id.
  - intros [-> | [-> | ->]]; split; reflexivity.
Qed.

(** C5. The displayed list holds the items that pass the search; with
    low-high they are in ascending order of the minimum of the price range
    (the scalar price, 0 when the price is missing), with high-low in
    descending order of the maximum, and in both modes items whose keys are
    equal keep their catalog order; the default mode keeps the catalog
    order. *)
Theorem sort_modes (menuData : Catalog) (p : Page) (h : Store) (its : list MenuItem) :
  showsCategory menuData p h its ->
  let shown := filteredItems menuData p h in
  let found := searched p its in
  (priceSort p = low_high ->
     Permutation found shown /\
     StronglySorted (fun x y => num_le (minPriceOf x) (minPriceOf y)) shown /\
     forall k, withKey minPriceOf k shown = withKey minPriceOf k found) /\
  (priceSort p = high_low ->
     Permutation found shown /\
     StronglySorted (fun x y => num_le (maxPriceOf y) (maxPriceOf x)) shown /\
     forall k, withKey maxPriceOf k shown = withKey maxPriceOf k found) /\
  (priceSort p = default_order -> shown = found) /\
  (forall item,
     (forall ps m, price item = PArr ps -> least m ps -> minPriceOf item = JS.Fin m) /\
     (forall ps m, price item = PArr ps -> greatest m ps -> maxPriceOf item = JS.Fin m) /\
     (forall n, price item = PNum n ->
        minPriceOf item = JS.Fin n /\ maxPriceOf item = JS.Fin n) /\
     (price item = PNull \/ price item = PUndefined \/ price item = PEmptyStr ->
        minPriceOf item = JS.Fin 0 /\ maxPriceOf item = JS.Fin 0)).
Proof.
  intros Hshow shown found. subst shown found.
  rewrite (filteredItems_eq _ _ _ _ Hshow).
  repeat apply conj.
  - intros ->. simpl. repeat apply conj.
    + apply sort_perm.
    + apply lowHigh_sorted.
    + intros k. apply lowHigh_stable.
  - intros ->. simpl. repeat apply conj.
    + apply sort_perm.
    + apply highLow_sorted.
    + intros k. apply highLow_stable.
  - now intros ->.
  - apply sort_keys.
Qed.

Lemma sort_modes_witness :
  let p := {| cart := []; orderNotes := ""; language := en; selectedCategory := "mains";
              searchQuery := ""; priceSort := low_high |} in
  filteredItems mainsCatalog p mainsStore = [koshari; fattah] /\
  StronglySorted (fun x y => num_le (minPriceOf x) (minPriceOf y))
                 (filteredItems mainsCatalog p mainsStore) /\
  minPriceOf fattah = JS.Fin 80.
Proof.
  intros p.
  assert (Hshow : showsCategory mainsCatalog p mainsStore [fattah; koshari]).
  { eexists _, 0%nat. repeat split; reflexivity. }
  destruct (sort_modes mainsCatalog p mainsStore _ Hshow) as (Hlow & _ & _ & Hkeys).
  destruct (Hlow eq_refl) as (_ & Hsorted & _).
  destruct (Hkeys fattah) as (Hmin & _).
  split; [vm_compute; reflexivity|]. split; [exact Hsorted|].
  apply (Hmin [80; 120] 80 eq_refl).
  split; [now left | repeat constructor; lia].
Defined.

(** C9. Running the filter-and-sort derivation leaves every array that was
    in the store as it was, for every category, query and sort mode: the
    result is an array the store did not have, and the item array of every
    category of the catalog holds the same items in the same order. *)
Theorem catalog_never_mutated (menuData : Catalog) (p : Page) (h : Store) :
  let (r, h') := getFilteredAndSortedItems menuData p h in
  h !! r = None /\
  (forall a v, h !! a = Some v -> h' !! a = Some v) /\
  (forall id categoryData a its,
     menuData !! id = Some categoryData -> items categoryData = Some a ->
     h !! a = Some its -> h' !! a = Some its).
Proof.
  destruct (engine_frame menuData p h) as (v & Hu & Hr & _).
  destruct (getFilteredAndSortedItems menuData p h) as [r h']. simpl in *.
  split; [exact Hr|]. split; [exact Hu|].
  intros id categoryData a its _ _. apply Hu.
Qed.

Lemma catalog_never_mutated_witness :
  let p := {| cart := []; orderNotes := ""; language := en; selectedCategory := "mains";
              searchQuery := "a"; priceSort := low_high |} in
  snd (getFilteredAndSortedItems mainsCatalog p mainsStore) !! 0%nat
  = Some [fattah; koshari].
Proof.
  intros p.
  pose proof (catalog_never_mutated mainsCatalog p mainsStore) as H.
  destruct (getFilteredAndSortedItems mainsCatalog p mainsStore) as [r h'].
  destruct H as (_ & Hu & _). simpl.
  apply Hu. reflexivity.
Defined.

(** ** Strings: substrings, case folding, percent-encoding *)

Section Strings.

#[local] Arguments String.append !_ _ / : simpl nomatch.

Lemma append_assoc (a b c : string) : (a ++ b) ++ c = a ++ (b ++ c).
Proof. induction a as [|x a IH]; simpl; [reflexivity | now rewrite IH]. Qed.

Lemma append_empty_r (a : string) : a ++ "" = a.
Proof. induction a as [|x a IH]; simpl; [reflexivity | now rewrite IH]. Qed.

Lemma prefix_spec (q s : string) :
  String.prefix q s = true <-> exists suf, s = q ++ suf.
Proof.
  revert s. induction q as [|c q IH]; intros [|d s]; simpl.
  - split; [intros _; now exists "" | reflexivity].
  - split; [intros _; now exists (String d s) | reflexivity].
  - split; [discriminate | intros [suf H]; discriminate].
  - destruct (Ascii.ascii_dec c d) as [->|Hne].
    + rewrite IH. split; intros [suf H]; exists suf; [now rewrite H | now inversion H].
    + split; [discriminate | intros [suf H]; inversion H; congruence].
Qed.

Lemma includes_spec (s q : string) : JS.includes s q = true <-> occursIn q s.
Proof.
  unfold occursIn. induction s as [|c s IH]; cbn [JS.includes].
  - rewrite orb_false_r, prefix_spec. split.
    + intros [suf H]. now exists "", suf.
    + intros (pre & suf & H). destruct pre; [now exists suf | discriminate].
  - rewrite orb_true_iff, IH, prefix_spec. split.
    + intros [[suf H] | (pre & suf & H)].
      * now exists "", suf.
      * exists (String c pre), suf. simpl. now rewrite H.
    + intros (pre & suf & H). destruct pre as [|d pre]; simpl in H.
      * left. now exists suf.
      * right. exists pre, suf. now inversion H.
Qed.



(** *** Case folding *)











(** *** The search predicate *)

Lemma nonEmpty_true q : nonEmpty q = true <-> q <> "".
Proof. destruct q; simpl; split; congruence. Qed.





End Strings.

Lemma sortedBy_perm mode l : Permutation l (sortedBy mode l).
Proof. destruct mode; simpl; [reflexivity | apply sort_perm | apply sort_perm]. Qed.

Lemma In_sortedBy mode l (x : MenuItem) : In x (sortedBy mode l) <-> In x l.
Proof.
  split; apply Permutation_in; [symmetry|]; apply sortedBy_perm.
Qed.

Lemma searched_with_query p its :
  searchQuery p <> "" -> searched p its = List.filter (matchesQuery (searchQuery p)) its.
Proof. intros Hq%nonEmpty_true. unfold searched. now rewrite Hq. Qed.



(** ** Order composer *)

Section ComposerFacts.
Variable show : JS.Num -> string.





End ComposerFacts.






(** The message of the scenario, in English, with a note. *)
Example scenario_message :
  let p := setOrderNotes "no onions"
             (run [AddToCart (Some koshari) 1; AddToCart (Some fattah) 2]
                  {| cart := []; orderNotes := ""; language := en;
                     selectedCategory := "mains"; searchQuery := "";
                     priceSort := default_order |}) in
  composeMessage JS.toString p
  = "Hello! I'd like to place an order from Matbakh Gedity." ++ nl ++ nl
      ++ "• 1x Koshari - EGP 45" ++ nl
      ++ "• 2x Fattah - EGP 160" ++ nl ++ nl
      ++ "Total: EGP 205" ++ nl ++ nl
      ++ "Special Instructions: no onions" ++ nl ++ nl
      ++ "Thank you!" /\
  JS.encodeURIComponent "• 2x Fattah - EGP 160" = "%E2%80%A2%202x%20Fattah%20-%20EGP%20160".
Proof. split; vm_compute; reflexivity. Qed.

(** ** Price formatting *)

Section FormatPrice.
Variable toLocaleString : JS.Num -> string.

Lemma strict_eq_Fin x y : JS.strict_eq (JS.Fin x) (JS.Fin y) = true <-> x = y.
Proof. simpl. apply Z.eqb_eq. Qed.

Lemma strict_eq_bounds ps :
  ps <> [] -> (JS.strict_eq (JS.Math_min ps) (JS.Math_max ps) = true
               <-> JS.Math_min ps = JS.Math_max ps).
Proof.
  destruct ps as [|x xs]; [congruence|]. intros _.
  cbn [JS.Math_min JS.Math_max]. rewrite strict_eq_Fin.
  split; [now intros -> | now intros [= ->]].
Qed.

(** The two copies on an array whose least and greatest elements are
    [lo] and [hi]. *)
Lemma formatPrice_bounds ps lo hi language :
  least lo ps -> greatest hi ps ->
  V1.formatPrice toLocaleString (PArr ps) language
  = (if lo =? hi then "EGP " ++ toLocaleString (JS.Fin lo)
     else currency language ++ " " ++ toLocaleString (JS.Fin lo) ++ " - "
            ++ toLocaleString (JS.Fin hi)) /\
  V2.formatPrice (PArr ps) language
  = (if lo =? hi then "EGP " ++ JS.toString (JS.Fin lo)
     else currency language ++ " " ++ JS.toString (JS.Fin lo) ++ " - "
            ++ JS.toString (JS.Fin hi)).
Proof.
  intros Hlo Hhi.
  pose proof (Math_min_least _ _ Hlo) as Hmin.
  pose proof (Math_max_greatest _ _ Hhi) as Hmax.
  unfold V1.formatPrice, V2.formatPrice.
  destruct ps as [|x xs]; [destruct Hlo as [[] _]|].
  cbn [length Nat.eqb]. rewrite Hmin, Hmax. cbn [JS.strict_eq].
  destruct (lo =? hi); [split; reflexivity|].
  destruct language; split; reflexivity.
Qed.

Lemma pair_bounds a b : a <= b -> least a [a; b] /\ greatest b [a; b].
Proof.
  intros H. split; (split; [simpl; auto | repeat constructor; lia]).
Qed.

Lemma pair_bounds_swapped a b : a <= b -> least a [b; a] /\ greatest b [b; a].
Proof.
  intros H. split; (split; [simpl; auto | repeat constructor; lia]).
Qed.

Lemma in_range_text cur lo hi :
  JS.includes (cur ++ " " ++ lo ++ " - " ++ hi) lo = true /\
  JS.includes (cur ++ " " ++ lo ++ " - " ++ hi) hi = true.
Proof.
  split; apply includes_spec.
  - exists (cur ++ " "), (" - " ++ hi). now rewrite !append_assoc.
  - exists (cur ++ " " ++ lo ++ " - "), "".
    now rewrite !append_assoc, append_empty_r.
Qed.

Lemma not_prefixed_EGP rest : String.prefix (currency ar) ("EGP " ++ rest) = false.
Proof. reflexivity. Qed.

Lemma prefixed_Arabic rest : String.prefix (currency ar) (currency ar ++ rest) = true.
Proof. apply prefix_spec. now exists rest. Qed.

End FormatPrice.

(** C8. For a range [[a, b]] with [a < b], in either language and in both
    copies of the page, [formatPrice] gives the currency literal of the
    language followed by the rendering of [a], a dash and the rendering of
    [b] (so the text contains both), also when the range is stored as
    [[b, a]]; for [a = b] it gives one value. *)
Theorem formatPrice_range (toLocaleString : JS.Num -> string) (a b : Z)
    (language : Language) :
  (a < b ->
     let text1 := V1.formatPrice toLocaleString (PArr [a; b]) language in
     let text2 := V2.formatPrice (PArr [a; b]) language in
     text1 = currency language ++ " " ++ toLocaleString (JS.Fin a) ++ " - "
               ++ toLocaleString (JS.Fin b) /\
     JS.includes text1 (toLocaleString (JS.Fin a)) = true /\
     JS.includes text1 (toLocaleString (JS.Fin b)) = true /\
     text2 = currency language ++ " " ++ JS.toString (JS.Fin a) ++ " - "
               ++ JS.toString (JS.Fin b) /\
     JS.includes text2 (JS.toString (JS.Fin a)) = true /\
     JS.includes text2 (JS.toString (JS.Fin b)) = true /\
     V1.formatPrice toLocaleString (PArr [b; a]) language = text1 /\
     V2.formatPrice (PArr [b; a]) language = text2) /\
  (a = b ->
     V1.formatPrice toLocaleString (PArr [a; b]) language
     = "EGP " ++ toLocaleString (JS.Fin a) /\
     V2.formatPrice (PArr [a; b]) language = "EGP " ++ JS.toString (JS.Fin a)).
Proof.
  split.
  - intros Hab text1 text2.
    destruct (pair_bounds a b ltac:(lia)) as [Hlo Hhi].
    destruct (pair_bounds_swapped a b ltac:(lia)) as [Hlo' Hhi'].
    destruct (formatPrice_bounds toLocaleString _ _ _ language Hlo Hhi) as [H1 H2].
    destruct (formatPrice_bounds toLocaleString _ _ _ language Hlo' Hhi') as [H1' H2'].
    assert (Hne : (a =? b) = false) by (apply Z.eqb_neq; lia).
    rewrite Hne in H1, H2, H1', H2'.
    subst text1 text2. rewrite H1', H2', H1, H2.
    repeat apply conj; try reflexivity; apply in_range_text.
  - intros <-.
    destruct (pair_bounds a a ltac:(lia)) as [Hlo Hhi].
    destruct (formatPrice_bounds toLocaleString _ _ _ language Hlo Hhi) as [H1 H2].
    now rewrite Z.eqb_refl in H1, H2.
Qed.

Lemma formatPrice_range_witness :
  V1.formatPrice enUS (PArr [1500; 12000]) ar = "ج.م 1,500 - 12,000" /\
  V2.formatPrice (PArr [1500; 12000]) ar = "ج.م 1500 - 12000" /\
  JS.includes (V2.formatPrice (PArr [1500; 12000]) ar) "12000" = true /\
  V2.formatPrice (PArr [80; 80]) en = "EGP 80".
Proof.
  destruct (formatPrice_range enUS 1500 12000 ar) as [Hlt _].
  destruct (Hlt ltac:(lia)) as (H1 & _ & _ & H2 & _ & Hb & _).
  destruct (formatPrice_range enUS 80 80 en) as [_ Heq].
  destruct (Heq eq_refl) as [_ H3].
  split; [exact H1 | split; [exact H2 | split; [exact Hb | exact H3]]].
Defined.

(** C10. For a scalar price and for an array whose minimum equals its
    maximum, both copies of [formatPrice] give a text that begins with
    ["EGP"] in either language; a text begins with the Arabic currency
    literal only in Arabic and only for a missing or empty price (first copy)
    or an array with distinct bounds (both copies). *)
Theorem formatPrice_currency (toLocaleString : JS.Num -> string) (language : Language) :
  (forall n,
     V1.formatPrice toLocaleString (PNum n) language
     = "EGP " ++ toLocaleString (JS.Fin n) /\
     V2.formatPrice (PNum n) language = "EGP " ++ JS.toString (JS.Fin n)) /\
  (forall ps,
     ps <> [] -> JS.Math_min ps = JS.Math_max ps ->
     V1.formatPrice toLocaleString (PArr ps) language
     = "EGP " ++ toLocaleString (JS.Math_min ps) /\
     V2.formatPrice (PArr ps) language = "EGP " ++ JS.toString (JS.Math_min ps)) /\
  (forall price,
     String.prefix (currency ar) (V1.formatPrice toLocaleString price language) = true
     <-> language = ar /\
         (missingPrice price \/
          exists ps, price = PArr ps /\ ps <> [] /\ JS.Math_min ps <> JS.Math_max ps)) /\
  (forall price,
     String.prefix (currency ar) (V2.formatPrice price language) = true
     <-> language = ar /\
         exists ps, price = PArr ps /\ ps <> [] /\ JS.Math_min ps <> JS.Math_max ps).
Proof.
  repeat apply conj.
  - intros n. split; reflexivity.
  - intros ps Hne Heq. unfold V1.formatPrice, V2.formatPrice.
    destruct ps as [|x xs]; [congruence|]. cbn [length Nat.eqb].
    rewrite (proj2 (strict_eq_bounds _ Hne) Heq). split; reflexivity.
  - intros price. unfold missingPrice.
    destruct price as [| | | n | [|x xs]]; unfold V1.formatPrice; cbn [length Nat.eqb].
    1-3, 5: destruct language;
      (split; [try discriminate; intros _; split; auto 6 | try reflexivity; intros [[=] _]]).
    + rewrite not_prefixed_EGP. split; [discriminate|].
      intros [_ [[[=]|[[=]|[[=]|[=]]]] | (ps & [=] & _)]].
    + assert (Hne : x :: xs <> []) by discriminate.
      pose proof (strict_eq_bounds _ Hne) as Hs.
      destruct (JS.strict_eq (JS.Math_min (x :: xs)) (JS.Math_max (x :: xs))) eqn:E.
      * rewrite not_prefixed_EGP. split; [discriminate|].
        intros [_ [[[=]|[[=]|[[=]|[=]]]] | (ps & [= <-] & _ & Hd)]].
        exfalso. apply Hd, Hs. reflexivity.
      * destruct language.
        -- rewrite not_prefixed_EGP. split; [discriminate | intros [[=] _]].
        -- split; [|intros _; apply (prefixed_Arabic (" " ++ _))].
           intros _. split; [reflexivity|]. right. exists (x :: xs).
           repeat split; [exact Hne|]. intros Heq. apply Hs in Heq. discriminate.
  - intros price.
    destruct price as [| | | n | [|x xs]]; unfold V2.formatPrice; cbn [length Nat.eqb].
    1-3, 5: destruct language;
      (split; [discriminate | intros [_ (ps & Hp & Hne & _)]; congruence]).
    + rewrite not_prefixed_EGP. split; [discriminate|].
      intros [_ (ps & [=] & _)].
    + assert (Hne : x :: xs <> []) by discriminate.
      pose proof (strict_eq_bounds _ Hne) as Hs.
      destruct (JS.strict_eq (JS.Math_min (x :: xs)) (JS.Math_max (x :: xs))) eqn:E.
      * rewrite not_prefixed_EGP. split; [discriminate|].
        intros [_ (ps & [= <-] & _ & Hd)].
        exfalso. apply Hd, Hs. reflexivity.
      * destruct language.
        -- rewrite not_prefixed_EGP. split; [discriminate | intros [[=] _]].
        -- split; [|intros _; apply (prefixed_Arabic (" " ++ _))].
           intros _. split; [reflexivity|]. exists (x :: xs).
           repeat split; [exact Hne|]. intros Heq. apply Hs in Heq. discriminate.
Qed.

Lemma formatPrice_currency_witness :
  V1.formatPrice enUS (PArr [80; 80]) ar = "EGP 80" /\
  V2.formatPrice (PArr [80; 80]) ar = "EGP 80" /\
  String.prefix (currency ar) (V2.formatPrice (PArr [80; 120]) ar) = true.
Proof.
  destruct (formatPrice_currency enUS ar) as (_ & Heq & _ & Hv2).
  destruct (Heq [80; 80] ltac:(discriminate) eq_refl) as [H1 H2].
  split; [exact H1 | split; [exact H2|]].
  apply Hv2. split; [reflexivity|].
  exists [80; 120]. split; [reflexivity|]. split; discriminate.
Defined.

(** The two copies differ on a missing price. *)
Example missing_price_texts :
  V1.formatPrice enUS PNull ar = "ج.م 0" /\
  V1.formatPrice enUS PNull en = "EGP 0" /\
  V2.formatPrice PNull ar = "السعر عند الطلب" /\
  V2.formatPrice PNull en = "Price on request".
Proof. repeat split. Qed.

(** * Further properties of the page *)

(** ** Localized text *)

Lemma str_or_truthy a b :
  str_or a b = if JS.truthy a then JS.str a else b.
Proof. destruct a as [[|c s]|]; reflexivity. Qed.

Lemma str_or_empty a : str_or a "" = "" <-> JS.truthy a = false.
Proof. destruct a as [[|c s]|]; simpl; split; congruence. Qed.

(** X1. [getText] gives, in Arabic, the Arabic text of the field when there
    is one and otherwise what it gives in English; in English the primary
    text; the result is empty exactly when no such text exists, and it is
    empty for a missing object. *)
Theorem getText_fallback {T} `{Localized T} (item : T) (f : Field) (language : Language) :
  getText (Some item) f ar
  = (if JS.truthy (field_ar f item) then JS.str (field_ar f item)
     else getText (Some item) f en) /\
  getText (Some item) f en
  = (if JS.truthy (field f item) then JS.str (field f item) else "") /\
  (getText (Some item) f language = "" <->
     JS.truthy (field f item) = false /\
     (language = ar -> JS.truthy (field_ar f item) = false)) /\
  getText (@None T) f language = "".
Proof.
  split; [|split; [|split]].
  - simpl. now rewrite str_or_truthy.
  - simpl. now rewrite str_or_truthy.
  - destruct language; simpl.
    + rewrite str_or_empty. intuition discriminate.
    + rewrite str_or_truthy.
      destruct (field_ar f item) as [[|c s]|]; cbn [JS.truthy JS.str].
      * rewrite str_or_empty. tauto.
      * split; [discriminate|].
        intros [_ Har]. specialize (Har eq_refl). discriminate.
      * rewrite str_or_empty. tauto.
  - reflexivity.
Qed.



Lemma getText_fallback_witness :
  getText (Some fattah) f_name ar = "Fattah" /\
  getText (Some koshari) f_description en = "".
Proof.
  destruct (getText_fallback fattah f_name ar) as (Har & Hen & _).
  destruct (getText_fallback koshari f_description en) as (_ & _ & Hempty & _).
  split.
  - rewrite Har. exact Hen.
  - apply Hempty. split; [reflexivity | discriminate].
Defined.

(** ** Cart store: how the operations act on totals and on other lines *)

Section CartAlgebra.

Lemma reduce_items c : forall acc,
  fold_left (fun sum item => sum + JS.or0 (line_quantity item)) c acc
  = acc + sumQuantities c.
Proof.
  induction c as [|l c IH]; intros acc; simpl; [lia|].
  rewrite IH, or0_id. lia.
Qed.

Lemma getTotalItems_sum p : getTotalItems p = sumQuantities (cart p).
Proof. unfold getTotalItems. now rewrite reduce_items. Qed.

Lemma with_own_quantity l : with_quantity l (line_quantity l) = l.
Proof. now destruct l. Qed.

Lemma find_cons_hit n (l : CartLine) c :
  same_name n l = true -> find (same_name n) (l :: c) = Some l.
Proof. simpl. now intros ->. Qed.

Lemma find_cons_miss n (l : CartLine) c :
  same_name n l = false -> find (same_name n) (l :: c) = find (same_name n) c.
Proof. simpl. now intros ->. Qed.

Lemma unique_tail_absent n (l : CartLine) c :
  NoDup (map line_name (l :: c)) -> same_name n l = true ->
  find (same_name n) c = None.
Proof.
  simpl. intros [Hnotin _]%NoDup_cons Hl%same_name_true.
  destruct (find (same_name n) c) as [x|] eqn:E; [|reflexivity].
  apply find_some in E as [Hin Hx%same_name_true].
  exfalso. apply Hnotin. apply list_elem_of_In, in_map_iff.
  exists x. split; [congruence | exact Hin].
Qed.

(** The sums after one line of a cart with distinct names was given a new
    quantity. *)
Lemma sums_after_update n (g : CartLine -> Z) c l :
  NoDup (map line_name c) -> find (same_name n) c = Some l ->
  let c' := map (fun x => if same_name n x then with_quantity x (g x) else x) c in
  sumQuantities c' = sumQuantities c - line_quantity l + g l /\
  sumLines c' = sumLines c - line_quantity l * unitPrice l + g l * unitPrice l.
Proof.
  induction c as [|x c IH]; intros Hnd Hfind; [discriminate|].
  cbn [map sumQuantities sumLines].
  destruct (same_name n x) eqn:Ex.
  - rewrite (find_cons_hit _ _ _ Ex) in Hfind. injection Hfind as ->.
    rewrite (map_untouched n (fun x => with_quantity x (g x)) c
               (unique_tail_absent _ _ _ Hnd Ex)).
    unfold with_quantity, unitPrice; simpl. split; lia.
  - rewrite (find_cons_miss _ _ _ Ex) in Hfind.
    apply NoDup_cons in Hnd as [_ Hnd].
    destruct (IH Hnd Hfind) as [Hq Hs]. split; lia.
Qed.

Lemma sums_app c c' :
  sumQuantities (c ++ c') = sumQuantities c + sumQuantities c' /\
  sumLines (c ++ c') = sumLines c + sumLines c'.
Proof. induction c as [|x c [IHq IHs]]; simpl; split; lia. Qed.

(** The sums after the line of a name was filtered out. *)
Lemma sums_after_remove n c :
  NoDup (map line_name c) ->
  let c' := List.filter (fun x => negb (same_name n x)) c in
  sumQuantities c' = sumQuantities c
                     - match find (same_name n) c with
                       | Some l => line_quantity l | None => 0 end /\
  sumLines c' = sumLines c
                - match find (same_name n) c with
                  | Some l => line_quantity l * unitPrice l | None => 0 end.
Proof.
  induction c as [|x c IH]; intros Hnd; [simpl; split; lia|].
  cbn [List.filter find sumQuantities sumLines].
  destruct (same_name n x) eqn:Ex; cbn [negb].
  - pose proof (unique_tail_absent _ _ _ Hnd Ex) as Habs.
    assert (Hsame : List.filter (fun x => negb (same_name n x)) c = c).
    { apply forallb_filter_id, forallb_forall. intros y Hy.
      now rewrite (find_absent _ _ Habs y Hy). }
    rewrite Hsame. split; lia.
  - apply NoDup_cons in Hnd as [_ Hnd].
    destruct (IH Hnd) as [Hq Hs]. cbn [sumQuantities sumLines]. split; lia.
Qed.

End CartAlgebra.

(** X3. On a cart whose lines have distinct names, [addToCart(item, q)]
    raises the item count by [q] and the total price by [q] times the unit
    price of the item's line: the price that the line already has, or the
    price resolved from the item when the line is new. *)
Theorem addToCart_totals (item : MenuItem) (q : Z) (p : Page) :
  uniqueNames p ->
  getTotalItems (addToCart (Some item) q p) = getTotalItems p + q /\
  getTotalPrice (addToCart (Some item) q p) = getTotalPrice p + q * chargedPrice item p.
Proof.
  intros Hu. rewrite !getTotalItems_sum, !getTotalPrice_sumLines. unfold chargedPrice.
  destruct (lineOf (name item) p) as [l|] eqn:E.
  - rewrite (addToCart_existing _ _ _ _ E).
    destruct (sums_after_update (name item) (fun x => line_quantity x + q)
                (cart p) l Hu E) as [Hq Hs].
    split; (etransitivity; [first [exact Hq | exact Hs] | lia]).
  - rewrite (addToCart_new _ _ _ E).
    destruct (sums_app (cart p) [ {| line_item := item; line_price := cartPrice item;
                                    line_quantity := q |} ]) as [-> ->].
    simpl. unfold unitPrice; simpl.
    destruct (cartPrice item) as [n|]; simpl; rewrite ?or0_id; split; lia.
Qed.

Lemma addToCart_totals_witness :
  let p := run [AddToCart (Some koshari) 1; AddToCart (Some fattah) 2] emptyPage in
  getTotalItems (addToCart (Some fattah) 3 p) = getTotalItems p + 3 /\
  getTotalPrice (addToCart (Some fattah) 3 p) = getTotalPrice p + 3 * 80.
Proof.
  intros p. apply (addToCart_totals fattah 3 p).
  unfold uniqueNames. apply (bool_decide_unpack _). vm_compute. exact I.
Defined.

Lemma lineOf_removeFromCart n n' p :
  lineOf n' (removeFromCart n p) = if bool_decide (n' = n) then None else lineOf n' p.
Proof.
  unfold lineOf. simpl.
  induction (cart p) as [|x c IH]; simpl.
  - now destruct (bool_decide (n' = n)).
  - destruct (same_name n x) eqn:Ex; simpl.
    + rewrite IH. apply same_name_true in Ex.
      destruct (bool_decide_reflect (n' = n)) as [->|Hne]; [reflexivity|].
      assert (same_name n' x = false) as ->; [|reflexivity].
      apply bool_decide_eq_false. congruence.
    + destruct (same_name n' x) eqn:Ex'; [|exact IH].
      apply same_name_true in Ex'. apply bool_decide_eq_false in Ex.
      rewrite bool_decide_eq_false_2; congruence.
Qed.

(** X4. [removeFromCart(name)] leaves no line of that name and every line of
    another name as it was; doing it twice is doing it once; on a cart with
    distinct names the item count and the total price drop by what that line
    stood for. *)
Theorem removeFromCart_effect (n : option string) (p : Page) :
  (forall n', lineOf n' (removeFromCart n p)
              = if bool_decide (n' = n) then None else lineOf n' p) /\
  removeFromCart n (removeFromCart n p) = removeFromCart n p /\
  (uniqueNames p ->
     getTotalItems (removeFromCart n p) = getTotalItems p - quantityIn n p /\
     getTotalPrice (removeFromCart n p) = getTotalPrice p - amountIn n p).
Proof.
  split; [|split].
  - intros n'. apply lineOf_removeFromCart.
  - apply Page_eq; try reflexivity. simpl.
    induction (cart p) as [|x c IH]; simpl; [reflexivity|].
    destruct (same_name n x) eqn:Ex; simpl; [exact IH|].
    now rewrite Ex, IH.
  - intros Hu. rewrite !getTotalItems_sum, !getTotalPrice_sumLines.
    unfold quantityIn, amountIn, lineOf. simpl.
    exact (sums_after_remove n (cart p) Hu).
Qed.

Lemma removeFromCart_effect_witness :
  let p := run [AddToCart (Some koshari) 1; AddToCart (Some fattah) 2] emptyPage in
  getTotalItems (removeFromCart (Some "Fattah") p) = 1 /\
  getTotalPrice (removeFromCart (Some "Fattah") p) = 45.
Proof.
  intros p.
  destruct (removeFromCart_effect (Some "Fattah") p) as (_ & _ & Htot).
  apply Htot.
  unfold uniqueNames. apply (bool_decide_unpack _). vm_compute. exact I.
Defined.

Lemma find_quantity_other n n' (g : CartLine -> Z) c :
  n' <> n ->
  find (same_name n') (map (fun l => if same_name n l then with_quantity l (g l) else l) c)
  = find (same_name n') c.
Proof.
  intros Hne. induction c as [|x c IH]; simpl; [reflexivity|].
  destruct (same_name n x) eqn:Ex.
  - rewrite same_name_with_quantity.
    apply same_name_true in Ex.
    assert (Hx : same_name n' x = false) by (apply bool_decide_eq_false; congruence).
    now rewrite Hx.
  - destruct (same_name n' x); [reflexivity | exact IH].
Qed.

Lemma find_app_miss n c l :
  same_name n l = false -> find (same_name n) (c ++ [l]) = find (same_name n) c.
Proof.
  intros Hl. induction c as [|x c IH]; simpl; [now rewrite Hl|].
  destruct (same_name n x); auto.
Qed.

(** X5. [addToCart] does not touch the lines of other names and keeps the
    order of the lines: the names of the cart are the names it had, followed
    by the name of the item when the item had no line; and a call with a
    missing item changes nothing. *)
Theorem addToCart_frame_lines (item : MenuItem) (q : Z) (p : Page) :
  (forall n', n' <> name item ->
     lineOf n' (addToCart (Some item) q p) = lineOf n' p) /\
  map line_name (cart (addToCart (Some item) q p))
  = (map line_name (cart p)
       ++ match lineOf (name item) p with Some _ => [] | None => [name item] end)%list /\
  addToCart None q p = p.
Proof.
  split; [|split; [|reflexivity]].
  - intros n' Hne. unfold lineOf.
    destruct (lineOf (name item) p) as [l|] eqn:E.
    + rewrite (addToCart_existing _ _ _ _ E).
      now apply (find_quantity_other (name item) n' (fun l => line_quantity l + q)).
    + rewrite (addToCart_new _ _ _ E). apply find_app_miss.
      apply bool_decide_eq_false. intros Heq. apply Hne. symmetry. exact Heq.
  - destruct (lineOf (name item) p) as [l|] eqn:E.
    + rewrite (addToCart_existing _ _ _ _ E), app_nil_r.
      now apply (names_after_update _ (fun l => with_quantity l (line_quantity l + q))).
    + rewrite (addToCart_new _ _ _ E), map_app. reflexivity.
Qed.

Lemma addToCart_frame_lines_witness :
  let p := run [AddToCart (Some koshari) 1] emptyPage in
  lineOf (Some "Koshari") (addToCart (Some fattah) 2 p) = lineOf (Some "Koshari") p.
Proof.
  intros p.
  destruct (addToCart_frame_lines fattah 2 p) as [Hother _].
  apply Hother. discriminate.
Defined.

Lemma filter_after_quantity n (g : CartLine -> Z) c :
  List.filter (fun x => negb (same_name n x))
    (map (fun l => if same_name n l then with_quantity l (g l) else l) c)
  = List.filter (fun x => negb (same_name n x)) c.
Proof.
  induction c as [|x c IH]; simpl; [reflexivity|].
  destruct (same_name n x) eqn:Ex; simpl.
  - now rewrite same_name_with_quantity, Ex.
  - now rewrite Ex, IH.
Qed.

Lemma quantity_after_quantity n (q1 q2 : Z) c :
  map (fun l => if same_name n l then with_quantity l q2 else l)
    (map (fun l => if same_name n l then with_quantity l q1 else l) c)
  = map (fun l => if same_name n l then with_quantity l q2 else l) c.
Proof.
  rewrite map_map. apply map_ext. intros l.
  destruct (same_name n l) eqn:E.
  - now rewrite same_name_with_quantity, E.
  - now rewrite E.
Qed.

Lemma quantity_after_filter n (q : Z) c :
  map (fun l => if same_name n l then with_quantity l q else l)
    (List.filter (fun x => negb (same_name n x)) c)
  = List.filter (fun x => negb (same_name n x)) c.
Proof.
  rewrite <- (map_id (List.filter _ c)) at 2. apply map_ext_in.
  intros l [_ Hl]%filter_In. apply negb_true_iff in Hl. now rewrite Hl.
Qed.

(** X6. Two [updateQuantity] calls for the same name: after a positive
    quantity the second call decides alone (the last quantity wins, or the
    line is removed); after a removal the line stays removed whatever the
    second quantity is. *)
Theorem updateQuantity_twice (n : option string) (q1 q2 : Z) (p : Page) :
  (0 < q1 -> updateQuantity n q2 (updateQuantity n q1 p) = updateQuantity n q2 p) /\
  (q1 <= 0 -> updateQuantity n q2 (updateQuantity n q1 p) = removeFromCart n p).
Proof.
  split; intros Hq1; unfold updateQuantity;
    destruct (Z.leb_spec q1 0); try lia; destruct (Z.leb_spec q2 0);
    apply Page_eq; try reflexivity; simpl.
  - apply (filter_after_quantity n (fun _ => q1)).
  - apply quantity_after_quantity.
  - induction (cart p) as [|x c IH]; simpl; [reflexivity|].
    destruct (same_name n x) eqn:Ex; simpl; [exact IH | now rewrite Ex, IH].
  - apply quantity_after_filter.
Qed.

Lemma updateQuantity_twice_witness :
  let p := run [AddToCart (Some koshari) 1; AddToCart (Some fattah) 2] emptyPage in
  quantityIn (Some "Fattah") (updateQuantity (Some "Fattah") 5
                                (updateQuantity (Some "Fattah") 9 p)) = 5 /\
  lineOf (Some "Fattah") (updateQuantity (Some "Fattah") 5
                            (updateQuantity (Some "Fattah") 0 p)) = None.
Proof.
  intros p.
  destruct (updateQuantity_twice (Some "Fattah") 9 5 p) as [Hpos _].
  destruct (updateQuantity_twice (Some "Fattah") 0 5 p) as [_ Hgone].
  rewrite (Hpos ltac:(lia)), (Hgone ltac:(lia)). split; reflexivity.
Defined.

(** ** The buttons of the cards *)

Section CardButtons.

Lemma cart_setCart f p : cart (setCart f p) = f (cart p).
Proof. reflexivity. Qed.

Lemma unique_line n c l x :
  NoDup (map line_name c) -> find (same_name n) c = Some l ->
  In x c -> same_name n x = true -> x = l.
Proof.
  induction c as [|y c IH]; intros Hnd Hfind Hin Hx; [destruct Hin|].
  destruct (same_name n y) eqn:Ey.
  - rewrite (find_cons_hit _ _ _ Ey) in Hfind. injection Hfind as <-.
    destruct Hin as [->|Hin]; [reflexivity|].
    pose proof (unique_tail_absent _ _ _ Hnd Ey) as Habs.
    rewrite (find_absent _ _ Habs x Hin) in Hx. discriminate.
  - rewrite (find_cons_miss _ _ _ Ey) in Hfind.
    apply NoDup_cons in Hnd as [_ Hnd].
    destruct Hin as [->|Hin]; [congruence | eauto].
Qed.

Lemma cardMinus_found item p l :
  lineOf (name item) p = Some l ->
  cardMinus item p = updateQuantity (name item) (line_quantity l - 1) p.
Proof. unfold cardMinus, lineOf. now intros ->. Qed.

Lemma cardMinus_absent item p : lineOf (name item) p = None -> cardMinus item p = p.
Proof. unfold cardMinus, lineOf. now intros ->. Qed.

Lemma setCart_same p c : c = cart p -> setCart (fun _ => c) p = p.
Proof. intros ->. now destruct p. Qed.

Lemma restore_quantities n (d q : Z) c l :
  NoDup (map line_name c) -> find (same_name n) c = Some l ->
  q = line_quantity l ->
  map (fun x => if same_name n x then with_quantity x q else x)
    (map (fun x => if same_name n x then with_quantity x (line_quantity x + d) else x) c)
  = c.
Proof.
  intros Hnd Hfind ->. rewrite map_map. rewrite <- (map_id c) at 2.
  apply map_ext_in. intros x Hx. destruct (same_name n x) eqn:Ex.
  - rewrite same_name_with_quantity, Ex.
    rewrite <- (unique_line _ _ _ _ Hnd Hfind Hx Ex).
    now destruct x.
  - now rewrite Ex.
Qed.

Lemma restore_after_set n (q : Z) c l :
  NoDup (map line_name c) -> find (same_name n) c = Some l ->
  map (fun x => if same_name n x then with_quantity x (line_quantity x + 1) else x)
    (map (fun x => if same_name n x then with_quantity x (line_quantity l - 1) else x) c)
  = c.
Proof.
  intros Hnd Hfind. rewrite map_map. rewrite <- (map_id c) at 2.
  apply map_ext_in. intros x Hx. destruct (same_name n x) eqn:Ex.
  - rewrite same_name_with_quantity, Ex.
    rewrite <- (unique_line _ _ _ _ Hnd Hfind Hx Ex).
    destruct x. unfold with_quantity; simpl. f_equal. lia.
  - now rewrite Ex.
Qed.

Lemma filter_appended n c l :
  find (same_name n) c = None -> same_name n l = true ->
  List.filter (fun x => negb (same_name n x)) (c ++ [l]) = c.
Proof.
  intros Habs Hl. rewrite List.filter_app. simpl. rewrite Hl. simpl.
  rewrite app_nil_r. apply forallb_filter_id, forallb_forall.
  intros y Hy. now rewrite (find_absent _ _ Habs y Hy).
Qed.

Lemma quantity_after_add item q p :
  exists l', lineOf (name item) (addToCart (Some item) q p) = Some l' /\
             line_quantity l' = quantityIn (name item) p + q.
Proof.
  eexists. split; [apply lineOf_addToCart|].
  unfold quantityIn. destruct (lineOf (name item) p); simpl; lia.
Qed.

End CardButtons.

(** X7. On a cart whose lines have distinct names and positive quantities,
    pressing [+] and then [-] on a card gives back the page as it was; and
    pressing [-] and then [+] gives it back when the line had a quantity of
    more than one. *)
Theorem card_plus_minus (item : MenuItem) (p : Page) :
  uniqueNames p ->
  (positiveQuantities p -> cardMinus item (cardPlus item p) = p) /\
  (1 < quantityIn (name item) p -> cardPlus item (cardMinus item p) = p).
Proof.
  intros Hu. split.
  - intros Hpos. unfold cardPlus.
    destruct (quantity_after_add item 1 p) as (l' & Hl' & Hq').
    rewrite (cardMinus_found item _ _ Hl'), Hq'.
    replace (quantityIn (name item) p + 1 - 1) with (quantityIn (name item) p) by lia.
    unfold quantityIn, updateQuantity.
    destruct (lineOf (name item) p) as [l|] eqn:E.
    + assert (Hl : 0 < line_quantity l).
      { unfold positiveQuantities in Hpos. rewrite List.Forall_forall in Hpos.
        apply Hpos. exact (proj1 (find_some _ _ E)). }
      destruct (Z.leb_spec (line_quantity l) 0); [lia|].
      apply Page_eq; try (destruct (addToCart_frame (Some item) 1 p)
                            as (? & ? & ? & ? & ?); assumption).
      rewrite cart_setCart, (addToCart_existing _ _ _ _ E).
      now apply (restore_quantities _ 1 _ _ l Hu E).
    + change (0 <=? 0) with true. cbv iota.
      apply Page_eq; try (destruct (addToCart_frame (Some item) 1 p)
                            as (? & ? & ? & ? & ?); assumption).
      unfold removeFromCart. rewrite cart_setCart, (addToCart_new _ _ _ E).
      apply filter_appended; [exact E|]. apply same_name_true. reflexivity.
  - unfold quantityIn. destruct (lineOf (name item) p) as [l|] eqn:E; [|lia].
    intros Hq. rewrite (cardMinus_found _ _ _ E). unfold updateQuantity.
    destruct (Z.leb_spec (line_quantity l - 1) 0); [lia|].
    assert (E' : lineOf (name item)
                   (setCart (map (fun x => if same_name (name item) x
                                           then with_quantity x (line_quantity l - 1)
                                           else x)) p)
                 = Some (with_quantity l (line_quantity l - 1))).
    { unfold lineOf in *. rewrite cart_setCart.
      rewrite (find_map_keeping (name item)
                 (fun x => if same_name (name item) x
                           then with_quantity x (line_quantity l - 1) else x)).
      - rewrite E. simpl. now rewrite (proj2 (find_some _ _ E)).
      - intros x. destruct (same_name (name item) x) eqn:Ex; auto. }
    unfold cardPlus. apply Page_eq; try reflexivity.
    rewrite (addToCart_existing _ _ _ _ E'). rewrite cart_setCart.
    exact (restore_after_set _ 0 _ _ Hu E).
Qed.

Lemma card_plus_minus_witness :
  let p := run [AddToCart (Some koshari) 1; AddToCart (Some fattah) 2] emptyPage in
  cardMinus koshari (cardPlus koshari p) = p /\
  cardPlus fattah (cardMinus fattah p) = p.
Proof.
  intros p.
  assert (Hu : uniqueNames p).
  { unfold uniqueNames. apply (bool_decide_unpack _). vm_compute. exact I. }
  destruct (card_plus_minus koshari p Hu) as [Hpm _].
  destruct (card_plus_minus fattah p Hu) as [_ Hmp].
  split.
  - apply Hpm. unfold positiveQuantities. simpl. repeat constructor.
  - apply Hmp. reflexivity.
Defined.

(** X8. The number shown between the buttons of a card goes up by one with
    [+] and down by one, but not below zero, with [-]. *)
Theorem card_quantity_steps (item : MenuItem) (p : Page) :
  cardQuantity item (cardPlus item p) = cardQuantity item p + 1 /\
  cardQuantity item (cardMinus item p) = Z.max 0 (cardQuantity item p - 1).
Proof.
  assert (Hq : forall r, cardQuantity item r = quantityIn (name item) r).
  { intros r. unfold cardQuantity, quantityIn, lineOf.
    destruct (find _ _); [apply or0_id | reflexivity]. }
  rewrite !Hq. unfold quantityIn at 1 3. split.
  - unfold cardPlus. rewrite lineOf_addToCart. unfold quantityIn.
    destruct (lineOf (name item) p); simpl; lia.
  - unfold quantityIn.
    destruct (lineOf (name item) p) as [l|] eqn:E.
    + rewrite (cardMinus_found _ _ _ E). unfold updateQuantity.
      destruct (Z.leb_spec (line_quantity l - 1) 0).
      * rewrite lineOf_removeFromCart, bool_decide_eq_true_2 by reflexivity. lia.
      * unfold lineOf in *. rewrite cart_setCart.
        rewrite (find_map_keeping (name item)
                   (fun x => if same_name (name item) x
                             then with_quantity x (line_quantity l - 1) else x)).
        -- rewrite E. simpl. rewrite (proj2 (find_some _ _ E)). simpl. lia.
        -- intros x. destruct (same_name (name item) x) eqn:Ex; auto.
    + rewrite (cardMinus_absent _ _ E), E. lia.
Qed.

(** ** The page as a state machine *)

Section UiMachine.

Lemma ui_inv_page (f : Page -> Page) u :
  (uniqueNames (page u) -> uniqueNames (f (page u))) ->
  (positiveQuantities (page u) -> positiveQuantities (f (page u))) ->
  ui_inv u -> ui_inv (withPage f u).
Proof. intros Hu Hp (? & ? & ?). repeat split; simpl; auto. Qed.

Lemma cardMinus_keeps item p :
  (uniqueNames p -> uniqueNames (cardMinus item p)) /\
  (positiveQuantities p -> positiveQuantities (cardMinus item p)).
Proof.
  unfold cardMinus. destruct (find _ _); split; auto using updateQuantity_unique, updateQuantity_positive, removeFromCart_unique, removeFromCart_positive.
Qed.

Lemma setOrderNotes_keeps notes p :
  (uniqueNames p -> uniqueNames (setOrderNotes notes p)) /\
  (positiveQuantities p -> positiveQuantities (setOrderNotes notes p)).
Proof. split; auto. Qed.

Lemma clearCart_keeps p : uniqueNames (clearCart p) /\ positiveQuantities (clearCart p).
Proof. split; [unfold uniqueNames | unfold positiveQuantities]; simpl; constructor. Qed.

Lemma onLine_inv i (f : CartLine -> Page -> Page) u :
  (forall item p, uniqueNames p -> uniqueNames (f item p)) ->
  (forall item p, positiveQuantities p -> positiveQuantities (f item p)) ->
  ui_inv u -> ui_inv (onLine i f u).
Proof.
  intros Hu Hp Hinv. unfold onLine.
  destruct (summaryShown u); [|exact Hinv].
  destruct (cart (page u) !! i); [|exact Hinv].
  apply ui_inv_page; auto.
Qed.

Lemma ui_step_inv u e : ui_inv u -> ui_inv (ui_step u e).
Proof.
  intros Hinv. pose proof Hinv as (Hu & Hp & Hm).
  destruct e; cbn [ui_step].
  - destruct item; [|exact Hinv]. repeat split; simpl; eauto.
  - apply ui_inv_page; [apply addToCart_unique | apply addToCart_positive; lia | exact Hinv].
  - apply ui_inv_page; [apply cardMinus_keeps | apply cardMinus_keeps | exact Hinv].
  - destruct (itemModalShown u); [|exact Hinv].
    repeat split; simpl; [now apply addToCart_unique | | discriminate].
    apply addToCart_positive; [lia | exact Hp].
  - destruct (itemModalShown u); [|exact Hinv].
    repeat split; simpl; auto; discriminate.
  - destruct (isItemModalOpen u || isCartOpen u); [|exact Hinv].
    unfold handleEscape. destruct (bool_decide (key = "Escape")); [|exact Hinv].
    destruct (isItemModalOpen u) eqn:Eo; simpl;
      destruct (isCartOpen u); repeat split; simpl; auto; try discriminate;
      rewrite ?Eo; discriminate.
  - destruct (0 <? getTotalItems (page u)); [|exact Hinv]. repeat split; simpl; auto.
  - destruct (isCartOpen u); [|exact Hinv]. repeat split; simpl; auto.
  - apply onLine_inv; [| |exact Hinv]; intros; unfold linePlus; auto using updateQuantity_unique, updateQuantity_positive, removeFromCart_unique, removeFromCart_positive.
  - apply onLine_inv; [| |exact Hinv]; intros; unfold lineMinus; auto using updateQuantity_unique, updateQuantity_positive, removeFromCart_unique, removeFromCart_positive.
  - apply onLine_inv; [| |exact Hinv]; intros; unfold lineRemove; auto using updateQuantity_unique, updateQuantity_positive, removeFromCart_unique, removeFromCart_positive.
  - destruct (summaryShown u); [|exact Hinv].
    apply ui_inv_page; [intros _; apply clearCart_keeps | intros _; apply clearCart_keeps
                       | exact Hinv].
  - destruct (summaryShown u); [|exact Hinv].
    apply ui_inv_page; [apply setOrderNotes_keeps | apply setOrderNotes_keeps | exact Hinv].
  - apply ui_inv_page; auto.
  - apply ui_inv_page; auto.
  - apply ui_inv_page; auto.
  - apply ui_inv_page; auto.
Qed.

Lemma ui_run_inv es : forall u, ui_inv u -> ui_inv (ui_run es u).
Proof.
  induction es as [|e es IH]; intros u H; [exact H|].
  apply (IH (ui_step u e)), ui_step_inv, H.
Qed.

Lemma initialUi_inv u : initialUi u -> ui_inv u.
Proof.
  intros (Hc & Ho & _ & _). repeat split.
  - unfold uniqueNames. rewrite Hc. constructor.
  - unfold positiveQuantities. rewrite Hc. constructor.
  - rewrite Ho. discriminate.
Qed.

Lemma positive_sum c :
  Forall (fun l => 0 < line_quantity l) c ->
  0 <= sumQuantities c /\ (c <> [] -> 0 < sumQuantities c).
Proof.
  induction 1 as [|l c Hl _ [IH _]]; simpl; split; try lia; congruence.
Qed.

Lemma proceed_when_lines p :
  positiveQuantities p -> (0 < getTotalItems p <-> cart p <> []).
Proof.
  intros Hp. rewrite getTotalItems_sum. split.
  - intros Hs Hc. rewrite Hc in Hs. simpl in Hs. lia.
  - apply positive_sum, Hp.
Qed.

End UiMachine.

(** X9. Whatever the visitor does on the freshly rendered page (cards,
    buttons of the two modals, keys, notes), the lines of the cart keep
    distinct names and positive quantities, and the item modal is open only
    while an item is selected. *)
Theorem ui_invariant (u0 : Ui) (es : list UiEvent) :
  initialUi u0 ->
  let u := ui_run es u0 in
  uniqueNames (page u) /\ positiveQuantities (page u) /\
  (isItemModalOpen u = true -> is_Some (selectedItem u)).
Proof. intros H. apply ui_run_inv, initialUi_inv, H. Qed.

Lemma ui_invariant_witness :
  let u := ui_run [ClickItem (Some koshari); ClickAddToCart; ClickCardPlus fattah;
                   ClickProceed; ClickLineMinus 0; KeyDown "Escape"] firstRender in
  map line_name (cart (page u)) = [Some "Fattah"] /\
  positiveQuantities (page u) /\ isCartOpen u = false.
Proof.
  intros u.
  destruct (ui_invariant firstRender
              [ClickItem (Some koshari); ClickAddToCart; ClickCardPlus fattah;
               ClickProceed; ClickLineMinus 0; KeyDown "Escape"])
    as (_ & Hp & _).
  { repeat split. }
  split; [vm_compute; reflexivity|]. split; [exact Hp | vm_compute; reflexivity].
Defined.

(** X10. In every state the visitor can reach, the button that opens the
    order summary ([getTotalItems() > 0]) is rendered exactly when the cart
    has a line ([cart.length > 0]). *)
Theorem proceed_button_iff_lines (u0 : Ui) (es : list UiEvent) :
  initialUi u0 ->
  let u := ui_run es u0 in
  (0 <? getTotalItems (page u)) = true <-> cart (page u) <> [].
Proof.
  intros H u. rewrite Z.ltb_lt. apply proceed_when_lines.
  apply (ui_run_inv es u0 (initialUi_inv _ H)).
Qed.

Lemma proceed_button_iff_lines_witness :
  (0 <? getTotalItems (page (ui_run [ClickCardPlus koshari; ClickCardMinus koshari]
                                    firstRender))) = false.
Proof.
  destruct (proceed_button_iff_lines firstRender
              [ClickCardPlus koshari; ClickCardMinus koshari]) as [Hshown _].
  { repeat split. }
  destruct (0 <? getTotalItems _) eqn:E; [|reflexivity].
  exfalso. apply (Hshown eq_refl). vm_compute. reflexivity.
Defined.

Lemma run_priced ops : forall p,
  Forall addsPriced ops ->
  Forall (fun l => is_Some (line_price l)) (cart p) ->
  Forall (fun l => is_Some (line_price l)) (cart (run ops p)).
Proof.
  induction ops as [|op ops IH]; intros p Hops Hp; [exact Hp|].
  apply Forall_cons in Hops as [Hop Hops]. rewrite run_cons. apply IH; [exact Hops|].
  destruct op as [[item|] q | n q | n |]; cbn [apply_op]; try exact Hp.
  - destruct (lineOf (name item) p) as [l|] eqn:E.
    + rewrite (addToCart_existing _ _ _ _ E).
      rewrite List.Forall_forall in *. intros x' (x & <- & Hx)%in_map_iff.
      destruct (same_name (name item) x); simpl; auto.
    + rewrite (addToCart_new _ _ _ E). apply Forall_app. split; [exact Hp|].
      constructor; [|constructor]. simpl. simpl in Hop. unfold priced in Hop.
      unfold cartPrice. destruct (price item) as [| | | n | [|x xs]]; simpl; eauto.
      congruence.
  - unfold updateQuantity. destruct (q <=? 0); simpl.
    + rewrite List.Forall_forall in *. intros x [Hx _]%filter_In. auto.
    + rewrite List.Forall_forall in *. intros x' (x & <- & Hx)%in_map_iff.
      destruct (same_name n x); simpl; auto.
  - simpl. rewrite List.Forall_forall in *. intros x [Hx _]%filter_In. auto.
  - simpl. constructor.
Qed.

(** X11. The unit price stored on a new line is a number except for an item
    whose price is the empty array, for which it is [undefined]; so when
    every item added to the cart has a price other than the empty array,
    every line of every reachable cart has a number as its price, and the
    unit price of the order summary of the first copy
    ([item.price.toLocaleString()]) can be rendered for every line. *)
Theorem line_prices_defined (toLocaleString : JS.Num -> string) (language : Language)
    (p0 : Page) (ops : list CartOp) :
  (forall item, cartPrice item = None <-> price item = PArr []) /\
  (fresh_page p0 -> Forall addsPriced ops ->
   Forall (fun l => is_Some (V1_eachPrice toLocaleString language l))
          (cart (run ops p0))).
Proof.
  split.
  - intros item. unfold cartPrice.
    destruct (price item) as [| | | n | [|x xs]]; simpl; split; congruence.
  - intros Hfresh Hops.
    assert (H : Forall (fun l => is_Some (line_price l)) (cart (run ops p0))).
    { apply run_priced; [exact Hops|]. rewrite Hfresh. constructor. }
    eapply List.Forall_impl; [|exact H].
    intros l [n Hn]. unfold V1_eachPrice. rewrite Hn. eauto.
Qed.

Lemma line_prices_defined_witness :
  Forall (fun l => is_Some (V1_eachPrice enUS ar l))
         (cart (run [AddToCart (Some koshari) 1; AddToCart (Some fattah) 2] emptyPage)).
Proof.
  destruct (line_prices_defined enUS ar emptyPage
              [AddToCart (Some koshari) 1; AddToCart (Some fattah) 2]) as [_ H].
  apply H; [reflexivity|].
  repeat constructor; discriminate.
Defined.

(** ** The grid *)

Section Grid.



Lemma In_take {A} (n : nat) (l : list A) x : In x (take n l) -> In x l.
Proof.
  revert n. induction l as [|y l IH]; intros [|n]; simpl; try tauto.
  intros [->|H]; eauto.
Qed.



Lemma NoDup_map_filter {A B} (f : A -> B) (g : A -> bool) l :
  NoDup (map f l) -> NoDup (map f (List.filter g l)).
Proof.
  induction l as [|x l IH]; simpl; intros H; [constructor|].
  apply NoDup_cons in H as [Hx Hl]. destruct (g x); simpl; auto.
  apply NoDup_cons_2; auto.
  rewrite list_elem_of_In in *. intros (y & Hy & [Hin _]%filter_In)%in_map_iff.
  apply Hx, in_map_iff. eauto.
Qed.

Lemma NoDup_map_take {A B} (f : A -> B) n l :
  NoDup (map f l) -> NoDup (map f (take n l)).
Proof.
  revert n. induction l as [|x l IH]; intros [|n]; simpl; intros H; try constructor.
  - apply NoDup_cons in H as [Hx Hl].
    rewrite list_elem_of_In in *. intros (y & Hy & Hin)%in_map_iff.
    apply Hx, in_map_iff. exists y. split; [exact Hy|].
    exact (In_take _ _ _ Hin).
  - apply IH. now apply NoDup_cons in H as [_ Hl].
Qed.

Lemma NoDup_map_perm {A B} (f : A -> B) l l' :
  Permutation l l' -> NoDup (map f l) -> NoDup (map f l').
Proof. intros Hp. now rewrite (Permutation_map f Hp). Qed.

Lemma imap_named (l : list MenuItem) : forall (k : nat -> MenuItem -> string),
  (forall i x, In x l -> k i x = JS.str (name x)) ->
  imap k l = map (fun x => JS.str (name x)) l.
Proof.
  induction l as [|x l IH]; intros k Hk; [reflexivity|].
  simpl. f_equal; [apply Hk; now left|].
  apply IH. intros i y Hy. apply Hk. now right.
Qed.

Lemma NoDup_named (l : list MenuItem) :
  Forall (fun x => JS.truthy (name x) = true) l ->
  NoDup (map name l) -> NoDup (map (fun x => JS.str (name x)) l).
Proof.
  induction 1 as [|x l Hx Hl IH]; simpl; intros H; [constructor|].
  apply NoDup_cons in H as [Hnot Hnd]. apply NoDup_cons_2; auto.
  rewrite list_elem_of_In in *. intros (y & Hy & Hin)%in_map_iff.
  apply Hnot, list_elem_of_In, in_map_iff. exists y. split; [|exact Hin].
  rewrite List.Forall_forall in Hl. specialize (Hl y Hin).
  destruct (name x) as [[|]|], (name y) as [[|]|]; simpl in *; congruence.
Qed.

End Grid.



(** X13. When the items of the category have distinct, non-empty names, the
    keys of the grid ([item.name || index]) are distinct for every query,
    sort mode and [visibleItems]. *)
Theorem grid_keys_distinct (visibleItems : nat) (menuData : Catalog) (p : Page)
    (h : Store) (its : list MenuItem) :
  showsCategory menuData p h its ->
  Forall (fun x => JS.truthy (name x) = true) its ->
  NoDup (map name its) ->
  NoDup (gridKeys (displayedItems visibleItems menuData p h)).
Proof.
  intros Hshow Hnamed Hnd. unfold displayedItems, gridKeys.
  rewrite (filteredItems_eq _ _ _ _ Hshow).
  assert (Hsub : forall x,
             In x (take visibleItems (sortedBy (priceSort p) (searched p its))) ->
             In x its).
  { intros x Hx'%In_take.
    apply In_sortedBy in Hx'. unfold searched in Hx'.
    destruct (nonEmpty (searchQuery p)); [now apply filter_In in Hx' | exact Hx']. }
  rewrite List.Forall_forall in Hnamed.
  rewrite imap_named.
  - apply NoDup_named.
    + apply List.Forall_forall. auto.
    + apply NoDup_map_take.
      apply (NoDup_map_perm name _ _ (sortedBy_perm _ _)).
      unfold searched. destruct (nonEmpty (searchQuery p)); [|exact Hnd].
      now apply NoDup_map_filter.
  - intros i x Hx. unfold gridKey. rewrite str_or_truthy.
    now rewrite (Hnamed x (Hsub x Hx)).
Qed.

Lemma grid_keys_distinct_witness :
  let p := {| cart := []; orderNotes := ""; language := en; selectedCategory := "mains";
              searchQuery := ""; priceSort := high_low |} in
  NoDup (gridKeys (displayedItems V1_visibleItems mainsCatalog p mainsStore)).
Proof.
  intros p.
  apply (grid_keys_distinct V1_visibleItems mainsCatalog p mainsStore [fattah; koshari]).
  - eexists _, 0%nat. repeat split; reflexivity.
  - repeat constructor.
  - apply (bool_decide_unpack _). vm_compute. exact I.
Defined.

(** ** How searching and sorting compose *)

Section SortCompose.
Context {A : Type} (comparefn : A -> A -> JS.Num) (le : A -> A -> Prop).

Hypothesis compare_le :
  forall x y, JS.sortCompare (comparefn x y) <> Gt <-> le x y.
Hypothesis le_total : forall x y, le x y \/ le y x.
Hypothesis le_trans : forall x y z, le x y -> le y z -> le x z.

Lemma sort_insert_least x l :
  Forall (le x) l -> JS.sort_insert comparefn x l = x :: l.
Proof.
  destruct l as [|y l]; [reflexivity|]. intros [Hy _]%Forall_cons.
  apply compare_le in Hy. simpl.
  destruct (JS.sortCompare (comparefn x y)); congruence.
Qed.

Lemma sort_of_sorted l : StronglySorted le l -> JS.sort comparefn l = l.
Proof.
  induction 1 as [|x l Hs IH Hx]; [reflexivity|].
  simpl. rewrite IH. now apply sort_insert_least.
Qed.

Lemma sort_insert_filter_out (f : A -> bool) x l :
  f x = false ->
  List.filter f (JS.sort_insert comparefn x l) = List.filter f l.
Proof.
  intros Hx. induction l as [|y l IH]; simpl; [now rewrite Hx|].
  destruct (JS.sortCompare (comparefn x y)); simpl; rewrite ?Hx, ?IH; reflexivity.
Qed.

Lemma sort_insert_filter_in (f : A -> bool) x l :
  StronglySorted le l -> f x = true ->
  List.filter f (JS.sort_insert comparefn x l)
  = JS.sort_insert comparefn x (List.filter f l).
Proof.
  intros Hs Hx. induction Hs as [|y l Hs IH Hy]; [simpl; now rewrite Hx|].
  cbn [JS.sort_insert].
  destruct (JS.sortCompare (comparefn x y)) eqn:E.
  1,2: assert (Hxy : le x y) by (apply compare_le; congruence);
       change (List.filter f (x :: y :: l))
         with (if f x then x :: List.filter f (y :: l) else List.filter f (y :: l));
       rewrite Hx; symmetry; apply sort_insert_least;
       apply List.Forall_forall; intros z [Hz _]%filter_In;
       destruct Hz as [<-|Hz]; [exact Hxy|];
       rewrite List.Forall_forall in Hy; eauto.
  change (List.filter f (y :: JS.sort_insert comparefn x l))
    with (if f y then y :: List.filter f (JS.sort_insert comparefn x l)
          else List.filter f (JS.sort_insert comparefn x l)).
  change (List.filter f (y :: l))
    with (if f y then y :: List.filter f l else List.filter f l).
  destruct (f y) eqn:Ey.
  - cbn [JS.sort_insert]. rewrite E. now rewrite IH.
  - exact IH.
Qed.

Lemma sort_filter (f : A -> bool) l :
  List.filter f (JS.sort comparefn l) = JS.sort comparefn (List.filter f l).
Proof.
  induction l as [|x l IH]; [reflexivity|].
  cbn [JS.sort List.filter]. destruct (f x) eqn:Ex.
  - rewrite sort_insert_filter_in; [|now apply sort_sorted | exact Ex].
    cbn [JS.sort]. now rewrite IH.
  - now rewrite sort_insert_filter_out.
Qed.
End SortCompose.

Lemma lowHigh_total x y : lowHighOrder x y \/ lowHighOrder y x.
Proof. apply num_le_total; apply minPriceOf_notNaN. Qed.

Lemma highLow_total x y : highLowOrder x y \/ highLowOrder y x.
Proof. apply num_le_total; apply maxPriceOf_notNaN. Qed.

Lemma lowHigh_trans x y z : lowHighOrder x y -> lowHighOrder y z -> lowHighOrder x z.
Proof. apply num_le_trans. Qed.

Lemma highLow_trans x y z : highLowOrder x y -> highLowOrder y z -> highLowOrder x z.
Proof. unfold highLowOrder. intros. eapply num_le_trans; eauto. Qed.

Lemma sortedBy_filter mode (f : MenuItem -> bool) l :
  List.filter f (sortedBy mode l) = sortedBy mode (List.filter f l).
Proof.
  destruct mode; simpl; [reflexivity | |].
  - apply (sort_filter compareLowHigh lowHighOrder compareLowHigh_le
             lowHigh_total lowHigh_trans).
  - apply (sort_filter compareHighLow highLowOrder compareHighLow_le
             highLow_total highLow_trans).
Qed.

Lemma showsCategory_setSearchQuery menuData p h its s :
  showsCategory menuData p h its -> showsCategory menuData (setSearchQuery s p) h its.
Proof. intros (c & a & H). exists c, a. exact H. Qed.

(** X14. Searching and sorting commute: for a non-empty query the displayed
    list is the list displayed for the empty query, in the same sort mode,
    with the items that do not match taken out. *)
Theorem search_within_sorted (menuData : Catalog) (p : Page) (h : Store)
    (its : list MenuItem) :
  showsCategory menuData p h its ->
  searchQuery p <> "" ->
  filteredItems menuData p h
  = List.filter (matchesQuery (searchQuery p))
                (filteredItems menuData (setSearchQuery "" p) h).
Proof.
  intros Hshow Hq.
  rewrite (filteredItems_eq _ _ _ _ Hshow).
  rewrite (filteredItems_eq _ _ _ _ (showsCategory_setSearchQuery _ _ _ _ "" Hshow)).
  rewrite (searched_with_query _ _ Hq). unfold searched. simpl.
  symmetry. apply sortedBy_filter.
Qed.

Lemma search_within_sorted_witness :
  let p := {| cart := []; orderNotes := ""; language := en; selectedCategory := "mains";
              searchQuery := "a"; priceSort := low_high |} in
  filteredItems mainsCatalog p mainsStore
  = List.filter (matchesQuery "a") [koshari; fattah].
Proof.
  intros p.
  assert (Hshow : showsCategory mainsCatalog p mainsStore [fattah; koshari]).
  { eexists _, 0%nat. repeat split; reflexivity. }
  rewrite (search_within_sorted mainsCatalog p mainsStore _ Hshow ltac:(discriminate)).
  reflexivity.
Defined.

(** X15. Sorting what is already in order changes nothing: low-high leaves
    a list in ascending order of minimum price as it is, high-low one in
    descending order of maximum price, and sorting the result of a sort mode
    again in the same mode gives the same list. *)
Theorem sort_keeps_sorted (mode : SortMode) (l : list MenuItem) :
  (StronglySorted (fun x y => num_le (minPriceOf x) (minPriceOf y)) l ->
   sortedBy low_high l = l) /\
  (StronglySorted (fun x y => num_le (maxPriceOf y) (maxPriceOf x)) l ->
   sortedBy high_low l = l) /\
  sortedBy mode (sortedBy mode l) = sortedBy mode l.
Proof.
  assert (Hlow : forall l', StronglySorted lowHighOrder l' -> sortedBy low_high l' = l').
  { intros l'. apply (sort_of_sorted compareLowHigh lowHighOrder compareLowHigh_le). }
  assert (Hhigh : forall l', StronglySorted highLowOrder l' -> sortedBy high_low l' = l').
  { intros l'. apply (sort_of_sorted compareHighLow highLowOrder compareHighLow_le). }
  split; [apply Hlow | split; [apply Hhigh|]].
  destruct mode; [reflexivity | apply Hlow, lowHigh_sorted | apply Hhigh, highLow_sorted].
Qed.

Lemma sort_keeps_sorted_witness : sortedBy low_high [koshari; fattah] = [koshari; fattah].
Proof.
  destruct (sort_keeps_sorted low_high [koshari; fattah]) as [Hlow _].
  apply Hlow.
  apply SSorted_cons; [apply SSorted_cons; [apply SSorted_nil | constructor]|].
  constructor; [|constructor]. vm_compute. discriminate.
Defined.

Section Narrowing.






End Narrowing.



Section Ranges.

Lemma least_perm m ps ps' : Permutation ps ps' -> least m ps -> least m ps'.
Proof.
  intros Hp [Hin Hall]. split; [eapply Permutation_in; eauto|].
  rewrite List.Forall_forall in *. intros x Hx. apply Hall.
  eapply Permutation_in; [symmetry|]; eauto.
Qed.

Lemma greatest_perm m ps ps' : Permutation ps ps' -> greatest m ps -> greatest m ps'.
Proof.
  intros Hp [Hin Hall]. split; [eapply Permutation_in; eauto|].
  rewrite List.Forall_forall in *. intros x Hx. apply Hall.
  eapply Permutation_in; [symmetry|]; eauto.
Qed.

Lemma Math_min_perm ps ps' : Permutation ps ps' -> JS.Math_min ps = JS.Math_min ps'.
Proof.
  intros Hp. destruct ps as [|x xs].
  - apply Permutation_nil in Hp. now subst.
  - symmetry. apply Math_min_least. apply (least_perm _ _ _ Hp).
    apply fold_min_is_least.
Qed.

Lemma Math_max_perm ps ps' : Permutation ps ps' -> JS.Math_max ps = JS.Math_max ps'.
Proof.
  intros Hp. destruct ps as [|x xs].
  - apply Permutation_nil in Hp. now subst.
  - symmetry. apply Math_max_greatest. apply (greatest_perm _ _ _ Hp).
    apply fold_max_is_greatest.
Qed.

End Ranges.

(** X17. What [formatPrice] shows for a range, in both copies, and the keys
    that the two sort modes use depend on the numbers of the range only, not
    on the order in which the array lists them. *)
Theorem range_order_irrelevant (toLocaleString : JS.Num -> string)
    (language : Language) (ps ps' : list Z) :
  Permutation ps ps' ->
  V1.formatPrice toLocaleString (PArr ps) language
  = V1.formatPrice toLocaleString (PArr ps') language /\
  V2.formatPrice (PArr ps) language = V2.formatPrice (PArr ps') language /\
  (forall item item', price item = PArr ps -> price item' = PArr ps' ->
     minPriceOf item = minPriceOf item' /\ maxPriceOf item = maxPriceOf item').
Proof.
  intros Hp.
  pose proof (Math_min_perm _ _ Hp) as Hmin.
  pose proof (Math_max_perm _ _ Hp) as Hmax.
  pose proof (Permutation_length Hp) as Hlen.
  unfold V1.formatPrice, V2.formatPrice, minPriceOf, maxPriceOf.
  rewrite Hmin, Hmax, Hlen. split; [reflexivity | split; [reflexivity|]].
  intros item item' -> ->. now rewrite Hmin, Hmax.
Qed.

Lemma range_order_irrelevant_witness :
  V2.formatPrice (PArr [120; 80]) ar = V2.formatPrice (PArr [80; 120]) ar.
Proof.
  destruct (range_order_irrelevant enUS ar [120; 80] [80; 120]) as (_ & H & _).
  - apply perm_swap.
  - exact H.
Defined.

(** ** Scrolling the category bar *)

Section DragFacts.
Variable clamp : Z -> Z.

Lemma dragging_start s x0 : dragging s x0 (handleMouseDown x0 s).
Proof. repeat split. Qed.

Lemma dragging_move s x0 s' e :
  isMove e -> dragging s x0 s' ->
  dragging s x0 (pointer_step clamp s' e) /\
  el_scrollLeft (pointer_step clamp s' e)
  = clamp (el_scrollLeft s - 2 * (pointerX e - x0)).
Proof.
  intros He (Hd & Hx & Hs & Ho).
  destruct e; try destruct He; cbn [pointer_step pointerX];
    unfold handleMouseMove; rewrite Hd; cbn [negb];
    (split; [repeat split; assumption|]); cbn [el_scrollLeft];
    rewrite Hx, Hs, Ho; f_equal; lia.
Qed.

Lemma dragging_moves s x0 moves : forall s',
  Forall isMove moves -> dragging s x0 s' ->
  dragging s x0 (fold_left (pointer_step clamp) moves s').
Proof.
  induction moves as [|e moves IH]; intros s' Hm Hd; [exact Hd|].
  apply Forall_cons in Hm as [He Hm]. simpl. apply IH; [exact Hm|].
  now apply dragging_move.
Qed.

Lemma idle_moves moves : forall s,
  isDragging s = false -> Forall isMove moves ->
  fold_left (pointer_step clamp) moves s = s.
Proof.
  induction moves as [|e moves IH]; intros s Hs Hm; [reflexivity|].
  apply Forall_cons in Hm as [He Hm]. simpl.
  assert (Hstep : pointer_step clamp s e = s).
  { destruct e; try destruct He; cbn [pointer_step]; unfold handleMouseMove;
      now rewrite Hs. }
  rewrite Hstep. now apply IH.
Qed.

End DragFacts.

(** X18. While the category bar is dragged (mouse or touch), its scroll
    position is the position it had when the drag started, minus twice the
    distance of the pointer from where it started, kept within the
    scrollable range: it depends on the last pointer position only, not on
    the path or on where the bar sits in the page; and pointer moves outside
    a drag leave everything as it is. *)
Theorem drag_follows_pointer (clamp : Z -> Z) (s : Scroller) (x0 : Z)
    (start last : PointerEvent) (moves : list PointerEvent) :
  start = MouseDown x0 \/ start = TouchStart x0 ->
  Forall isMove moves -> isMove last ->
  el_scrollLeft (fold_left (pointer_step clamp) (start :: moves ++ [last]) s)
  = clamp (el_scrollLeft s - 2 * (pointerX last - x0)) /\
  (isDragging s = false ->
   fold_left (pointer_step clamp) (moves ++ [last]) s = s).
Proof.
  intros Hstart Hmoves Hlast. split.
  - cbn [fold_left]. rewrite fold_left_app. cbn [fold_left].
    apply dragging_move; [exact Hlast|].
    apply dragging_moves; [exact Hmoves|].
    destruct Hstart as [-> | ->]; apply dragging_start.
  - intros Hidle. apply idle_moves; [exact Hidle|].
    apply Forall_app. split; [exact Hmoves | now constructor].
Qed.

Lemma drag_follows_pointer_witness :
  let s := {| isDragging := false; startX := 0; scrollLeft := 0;
              el_offsetLeft := 16; el_scrollLeft := 300 |} in
  el_scrollLeft (fold_left (pointer_step (fun v => Z.max 0 (Z.min v 900)))
                   [MouseDown 100; MouseMove 40; MouseMove 130; MouseMove 70] s)
  = 360.
Proof.
  intros s.
  destruct (drag_follows_pointer (fun v => Z.max 0 (Z.min v 900)) s 100
              (MouseDown 100) (MouseMove 70) [MouseMove 40; MouseMove 130])
    as [H _].
  - now left.
  - repeat constructor.
  - exact I.
  - exact H.
Defined.

(** X19. The arrow buttons of the second copy: in Arabic every direction
    scrolls the opposite way of what it scrolls in English, the two buttons
    scroll opposite ways in either language, and each press scrolls by 200. *)
Theorem scrollCategories_mirrored (direction : string) (language : Language) :
  scrollCategories direction ar = - scrollCategories direction en /\
  scrollCategories "left" language = - scrollCategories "right" language /\
  Z.abs (scrollCategories direction language) = 200.
Proof.
  unfold scrollCategories. split; [|split].
  - destruct (bool_decide_reflect (direction = "left")) as [->|Hne]; [reflexivity|].
    simpl. reflexivity.
  - destruct language; reflexivity.
  - destruct language.
    + destruct (bool_decide (direction = "left")); reflexivity.
    + destruct (bool_decide (direction = "left")); reflexivity.
Qed.

(** ** Hero images and image placeholders *)

Lemma str_or_nonempty a b : b <> "" -> str_or a b <> "".
Proof. destruct a as [[|c s]|]; simpl; auto; discriminate. Qed.

(** X20. The hero image of the selected category is always a file under
    [/images/hero/] with a non-empty name, [trays.png] when the category is
    unknown or names no image; and it is the image that the preloading
    requested for that category, which requests one image per category. *)
Theorem hero_image_preloaded (menuData : Catalog) (p : Page) :
  (exists file, getHeroImageSrc menuData p = "/images/hero/" ++ file /\ file <> "") /\
  (menuData !! selectedCategory p = None \/
   (exists c, menuData !! selectedCategory p = Some c /\ JS.truthy (heroImage c) = false) ->
   getHeroImageSrc menuData p = "/images/hero/trays.png") /\
  (is_Some (menuData !! selectedCategory p) ->
   In (selectedCategory p, getHeroImageSrc menuData p) (preloadAllHeroImages menuData)) /\
  NoDup (map fst (preloadAllHeroImages menuData)) /\
  (forall id, In id (map fst (preloadAllHeroImages menuData)) <-> is_Some (menuData !! id)).
Proof.
  unfold getHeroImageSrc, heroSrc, preloadAllHeroImages.
  split; [|split; [|split; [|split]]].
  - eexists. split; [reflexivity|]. now apply str_or_nonempty.
  - intros [-> | (c & -> & Hc)]; [reflexivity|]. simpl.
    rewrite str_or_truthy, Hc. reflexivity.
  - intros [c Hc]. apply in_map_iff. exists (selectedCategory p, c).
    split; [reflexivity|]. apply list_elem_of_In, elem_of_map_to_list, Hc.
  - rewrite map_map. simpl. apply NoDup_fst_map_to_list.
  - intros id. rewrite map_map. simpl. rewrite in_map_iff. split.
    + intros ([id' c] & <- & Hin). simpl.
      apply list_elem_of_In, elem_of_map_to_list in Hin. eauto.
    + intros [c Hc]. exists (id, c). split; [reflexivity|].
      apply list_elem_of_In, elem_of_map_to_list, Hc.
Qed.

Lemma hero_image_preloaded_witness :
  In ("mains", "/images/hero/trays.png") (preloadAllHeroImages mainsCatalog).
Proof.
  destruct (hero_image_preloaded mainsCatalog emptyPage) as (_ & _ & Hpre & _).
  apply Hpre. eexists. reflexivity.
Defined.

Lemma imageLoaded_after n m states :
  imageLoaded n (handleImageLoad m states) = true
  <-> imageLoaded n states = true \/ JS.str n = JS.str m.
Proof.
  unfold imageLoaded, handleImageLoad.
  destruct (decide (JS.str m = JS.str n)) as [Heq|Hne].
  - rewrite Heq, lookup_insert_eq. simpl. intuition.
  - rewrite lookup_insert_ne by exact Hne. intuition congruence.
Qed.

(** X21. After any sequence of load and error events of item images, an
    item counts as loaded (its placeholder is gone) exactly when it did
    before or an event carried its name; so a placeholder that is gone never
    comes back. *)
Theorem placeholder_gone_iff_settled (states : gmap string bool)
    (names : list (option string)) (n : option string) :
  imageLoaded n (settle states names) = true
  <-> imageLoaded n states = true \/ In (JS.str n) (map JS.str names).
Proof.
  unfold settle. revert states.
  induction names as [|m names IH]; intros states; simpl; [tauto|].
  rewrite IH, imageLoaded_after. intuition.
Qed.

(** ** The buttons of the order summary *)

Lemma lineOf_member item p :
  uniqueNames p -> In item (cart p) -> lineOf (line_name item) p = Some item.
Proof.
  intros Hu Hin. unfold lineOf.
  destruct (find (same_name (line_name item)) (cart p)) as [l|] eqn:E.
  - f_equal. symmetry.
    apply (unique_line _ _ _ _ Hu E Hin). apply same_name_true. reflexivity.
  - pose proof (find_absent _ _ E item Hin) as H.
    assert (same_name (line_name item) item = true) by (apply same_name_true; reflexivity).
    congruence.
Qed.

Lemma updateQuantity_sums n q p l :
  uniqueNames p -> lineOf n p = Some l -> 0 < q ->
  getTotalItems (updateQuantity n q p) = getTotalItems p - line_quantity l + q /\
  getTotalPrice (updateQuantity n q p)
  = getTotalPrice p - line_quantity l * unitPrice l + q * unitPrice l.
Proof.
  intros Hu Hl Hq. rewrite !getTotalItems_sum, !getTotalPrice_sumLines.
  unfold updateQuantity. destruct (Z.leb_spec q 0); [lia|].
  rewrite cart_setCart.
  exact (sums_after_update n (fun _ => q) (cart p) l Hu Hl).
Qed.

Lemma removeFromCart_sums n p l :
  uniqueNames p -> lineOf n p = Some l ->
  getTotalItems (removeFromCart n p) = getTotalItems p - line_quantity l /\
  getTotalPrice (removeFromCart n p) = getTotalPrice p - line_quantity l * unitPrice l.
Proof.
  intros Hu Hl. rewrite !getTotalItems_sum, !getTotalPrice_sumLines.
  unfold removeFromCart. rewrite cart_setCart.
  pose proof (sums_after_remove n (cart p) Hu) as H. cbv zeta in H.
  unfold lineOf in Hl. rewrite Hl in H. exact H.
Qed.

(** X22. For a line of a cart whose lines have distinct names and positive
    quantities, the [+] button of the order summary raises the item count by
    one and the total by the unit price of the line, the [-] button lowers
    them by as much (removing the line when its quantity was one), and the
    remove button lowers them by the whole line. *)
Theorem summary_buttons (item : CartLine) (p : Page) :
  uniqueNames p -> positiveQuantities p -> In item (cart p) ->
  (getTotalItems (linePlus item p) = getTotalItems p + 1 /\
   getTotalPrice (linePlus item p) = getTotalPrice p + unitPrice item) /\
  (getTotalItems (lineMinus item p) = getTotalItems p - 1 /\
   getTotalPrice (lineMinus item p) = getTotalPrice p - unitPrice item) /\
  (line_quantity item = 1 -> lineOf (line_name item) (lineMinus item p) = None) /\
  (getTotalItems (lineRemove item p) = getTotalItems p - line_quantity item /\
   getTotalPrice (lineRemove item p)
   = getTotalPrice p - line_quantity item * unitPrice item).
Proof.
  intros Hu Hp Hin.
  pose proof (lineOf_member _ _ Hu Hin) as Hl.
  assert (Hq : 0 < line_quantity item).
  { unfold positiveQuantities in Hp. rewrite List.Forall_forall in Hp. auto. }
  split; [|split; [|split]].
  - unfold linePlus.
    destruct (updateQuantity_sums _ (line_quantity item + 1) _ _ Hu Hl ltac:(lia))
      as [Hi Ht].
    split; lia.
  - unfold lineMinus.
    destruct (Z.eq_dec (line_quantity item) 1) as [H1|H1].
    + rewrite H1. change (1 - 1) with 0.
      replace (updateQuantity (line_name item) 0 p)
        with (removeFromCart (line_name item) p) by reflexivity.
      destruct (removeFromCart_sums _ _ _ Hu Hl) as [Hi Ht]. split; lia.
    + destruct (updateQuantity_sums _ (line_quantity item - 1) _ _ Hu Hl ltac:(lia))
        as [Hi Ht].
      split; lia.
  - intros H1. unfold lineMinus. rewrite H1. change (1 - 1) with 0.
    replace (updateQuantity (line_name item) 0 p)
      with (removeFromCart (line_name item) p) by reflexivity.
    rewrite lineOf_removeFromCart. now rewrite bool_decide_eq_true_2.
  - unfold lineRemove. exact (removeFromCart_sums _ _ _ Hu Hl).
Qed.

Lemma summary_buttons_witness :
  let p := run [AddToCart (Some koshari) 1; AddToCart (Some fattah) 2] emptyPage in
  let line := {| line_item := fattah; line_price := Some 80; line_quantity := 2 |} in
  getTotalPrice (linePlus line p) = getTotalPrice p + 80 /\
  getTotalItems (lineMinus line p) = getTotalItems p - 1.
Proof.
  intros p line.
  destruct (summary_buttons line p) as ((_ & Hplus) & (Hminus & _) & _).
  - unfold uniqueNames. apply (bool_decide_unpack _). vm_compute. exact I.
  - unfold positiveQuantities. simpl. repeat constructor.
  - simpl. right. now left.
  - split; [exact Hplus | exact Hminus].
Defined.
